(** * infrared_transfer: camera fingerprint extraction and style application

    A shallow embedding of [src/camera_analyzer.py] (extract_fingerprint,
    save_maps), [src/style_applicator.py] (load_maps, apply_style) and
    [main.py] (load_config, run_extraction, run_application, main), the
    properties the specification states about them, and further properties
    of the code.

    Conventions of the embedding:
    - a 2-D numpy array is a list of rows; [rect h w a] says it is an
      [h] x [w] array;
    - a float sample is an extended rational [fval]: finite values are exact
      rationals (no rounding, no overflow), and the three IEEE special
      values that a division can create are kept ([PInf], [NInf], [NaN]);
      signed zeros are not distinguished;
    - a Python call either returns or raises: [outcome];
    - the OpenCV primitives whose code is outside the repository
      (imread, resize, GaussianBlur, cvtColor) are parameters of the
      pipeline, constrained by the part of their documented contract a
      property needs; module [Ref] gives executable instances. *)

From Stdlib Require Import Ascii String.
From Stdlib Require Import List ZArith QArith Qcanon Qround Bool Arith Lia
  Permutation.
Import ListNotations.

Local Close Scope Q_scope.
Local Close Scope Qc_scope.
Local Open Scope nat_scope.

Set Implicit Arguments.

(** ** Python control flow: return or raise *)

Inductive exn : Type :=
| FileNotFoundError
| OSError
| ValueError
| Cv2Error.

Inductive outcome (A : Type) : Type :=
| Returned (a : A)
| Raised (e : exn).

Arguments Returned {A} a.
Arguments Raised {A} e.

Definition bind {A B : Type} (m : outcome A) (k : A -> outcome B) : outcome B :=
  match m with
  | Returned a => k a
  | Raised e => Raised e
  end.

Declare Scope py_scope.
Delimit Scope py_scope with py.
Notation "x <- m ;; k" := (bind m (fun x => k))
  (at level 61, m at next level, right associativity) : py_scope.

Definition returns {A : Type} (m : outcome A) : Prop :=
  exists a, m = Returned a.

(** ** Float samples *)

Inductive fval : Type :=
| Fin (q : Qc)
| PInf
| NInf
| NaN.

Definition finite (x : fval) : Prop :=
  match x with Fin _ => True | _ => False end.

Definition Qc_of_Z (z : Z) : Qc := Q2Qc (inject_Z z).
Definition fzero : fval := Fin (Qc_of_Z 0).
Definition of_Z (z : Z) : fval := Fin (Qc_of_Z z).

Definition fopp (x : fval) : fval :=
  match x with
  | Fin q => Fin (- q)%Qc
  | PInf => NInf
  | NInf => PInf
  | NaN => NaN
  end.

Definition fadd (x y : fval) : fval :=
  match x, y with
  | NaN, _ | _, NaN => NaN
  | Fin a, Fin b => Fin (a + b)%Qc
  | PInf, NInf | NInf, PInf => NaN
  | PInf, _ | _, PInf => PInf
  | NInf, _ | _, NInf => NInf
  end.

Definition fsub (x y : fval) : fval := fadd x (fopp y).

(** The sign of an infinity times (or over) a finite factor; a zero factor
    has no sign. *)
Definition signed_inf (positive : bool) (q : Qc) : fval :=
  match (q ?= Qc_of_Z 0)%Qc with
  | Eq => NaN
  | Gt => if positive then PInf else NInf
  | Lt => if positive then NInf else PInf
  end.

Definition fmul (x y : fval) : fval :=
  match x, y with
  | NaN, _ | _, NaN => NaN
  | Fin a, Fin b => Fin (a * b)%Qc
  | PInf, Fin b | Fin b, PInf => signed_inf true b
  | NInf, Fin b | Fin b, NInf => signed_inf false b
  | PInf, PInf | NInf, NInf => PInf
  | PInf, NInf | NInf, PInf => NInf
  end.

(** numpy true division: a zero divisor does not raise, it yields an
    infinity (or NaN for 0/0) with a RuntimeWarning. *)
Definition fdiv (x y : fval) : fval :=
  match x, y with
  | NaN, _ | _, NaN => NaN
  | Fin a, Fin b =>
      match (b ?= Qc_of_Z 0)%Qc with
      | Eq => signed_inf true a
      | _ => Fin (a / b)%Qc
      end
  | Fin _, (PInf | NInf) => fzero
  | PInf, Fin b =>
      match (b ?= Qc_of_Z 0)%Qc with Lt => NInf | _ => PInf end
  | NInf, Fin b =>
      match (b ?= Qc_of_Z 0)%Qc with Lt => PInf | _ => NInf end
  | (PInf | NInf), (PInf | NInf) => NaN
  end.

(** [x <= y] on floats; every comparison with NaN is false. *)
Definition fle (x y : fval) : Prop :=
  match x, y with
  | NaN, _ | _, NaN => False
  | NInf, _ | _, PInf => True
  | Fin a, Fin b => (a <= b)%Qc
  | _, _ => False
  end.

Definition fleb (x y : fval) : bool :=
  match x, y with
  | NaN, _ | _, NaN => false
  | NInf, _ | _, PInf => true
  | Fin a, Fin b => match (a ?= b)%Qc with Gt => false | _ => true end
  | _, _ => false
  end.

(** np.maximum / np.minimum: NaN propagates. *)
Definition fmax (x y : fval) : fval :=
  match x, y with
  | NaN, _ | _, NaN => NaN
  | _, _ => if fleb x y then y else x
  end.

Definition fmin (x y : fval) : fval :=
  match x, y with
  | NaN, _ | _, NaN => NaN
  | _, _ => if fleb x y then x else y
  end.

(** ** Arrays *)

Definition ndarray (T : Type) : Type := list (list T).
Definition farray : Type := ndarray fval.
(** uint8 samples, kept as integers in [0, 256). *)
Definition image8 : Type := ndarray Z.

Definition rect {T : Type} (h w : nat) (a : ndarray T) : Prop :=
  length a = h /\ Forall (fun row => length row = w) a.

Definition height {T : Type} (a : ndarray T) : nat := length a.
Definition width {T : Type} (a : ndarray T) : nat :=
  match a with
  | [] => 0
  | row :: _ => length row
  end.

Definition all_samples {T : Type} (P : T -> Prop) (a : ndarray T) : Prop :=
  Forall (Forall P) a.

Definition all_finite (a : farray) : Prop := all_samples finite a.

(** np.zeros((h, w)) / np.full((h, w), v) *)
Definition full {T : Type} (h w : nat) (v : T) : ndarray T :=
  repeat (repeat v w) h.
Definition zeros (h w : nat) : farray := full h w fzero.

Definition amap {A B : Type} (f : A -> B) (a : ndarray A) : ndarray B :=
  map (map f) a.

(** Elementwise combination of two sequences of the same length. *)
Fixpoint zip_with {A B C : Type} (f : A -> B -> C) (l1 : list A) (l2 : list B)
  : option (list C) :=
  match l1, l2 with
  | [], [] => Some []
  | x :: l1', y :: l2' =>
      match zip_with f l1' l2' with
      | Some r => Some (f x y :: r)
      | None => None
      end
  | _, _ => None
  end.

Fixpoint zip_rows {A B C : Type} (f : A -> B -> C) (a : ndarray A) (b : ndarray B)
  : option (ndarray C) :=
  match a, b with
  | [], [] => Some []
  | r :: a', s :: b' =>
      match zip_with f r s, zip_rows f a' b' with
      | Some t, Some c => Some (t :: c)
      | _, _ => None
      end
  | _, _ => None
  end.

(** An elementwise binary operation on two arrays of one shape; operands of
    different shapes raise [e] (numpy: ValueError, OpenCV: cv2.error).  The
    pipeline only combines arrays of one shape, so numpy's broadcasting of
    unit dimensions is not modelled. *)
Definition elementwise {A B C : Type} (e : exn) (f : A -> B -> C)
  (a : ndarray A) (b : ndarray B) : outcome (ndarray C) :=
  match zip_rows f a b with
  | Some c => Returned c
  | None => Raised e
  end.

(** [a + b], [a - b] on numpy arrays *)
Definition np_add : farray -> farray -> outcome farray := elementwise ValueError fadd.
Definition np_sub : farray -> farray -> outcome farray := elementwise ValueError fsub.
(** [a / s], [a * s] with a scalar *)
Definition np_div_scalar (a : farray) (s : fval) : farray := amap (fun x => fdiv x s) a.
Definition np_mul_scalar (a : farray) (s : fval) : farray := amap (fun x => fmul x s) a.

(** The dtype of a float array.  The pipeline has both: the accumulator and
    the two maps of extract_fingerprint are float64 (camera_analyzer.py,
    line 52), the image of apply_style and the maps read from EXR files are
    float32. *)
Inductive dtype : Type := Float32 | Float64.

Definition dtype_eqb (s t : dtype) : bool :=
  match s, t with
  | Float32, Float32 | Float64, Float64 => true
  | _, _ => false
  end.

(** A float array as an OpenCV call sees it: its dtype and its samples. *)
Record tarray : Type := typed { dtype_of : dtype; samples : farray }.

(** cv2.multiply(a, b) / cv2.add(a, b), called without a dtype argument:
    the two arrays must have one size and one dtype, otherwise cv2.error is
    raised; the result has the dtype of the operands. *)
Definition cv2_arith (f : fval -> fval -> fval) (a b : tarray) : outcome tarray :=
  (r <- elementwise Cv2Error f (samples a) (samples b) ;;
   if dtype_eqb (dtype_of a) (dtype_of b)
   then Returned (typed (dtype_of a) r)
   else Raised Cv2Error)%py.

Definition cv2_multiply : tarray -> tarray -> outcome tarray := cv2_arith fmul.
Definition cv2_add : tarray -> tarray -> outcome tarray := cv2_arith fadd.

(** [a.max()]: NaN propagates; an empty array raises ValueError. *)
Definition np_max (a : farray) : outcome fval :=
  match concat a with
  | [] => Raised ValueError
  | x :: xs => Returned (fold_left fmax xs x)
  end.

(** np.clip(a, lo, hi) = minimum(maximum(a, lo), hi) *)
Definition clip1 (lo hi : fval) (x : fval) : fval := fmin (fmax x lo) hi.
Definition np_clip (a : farray) (lo hi : fval) : farray := amap (clip1 lo hi) a.

(** [x.astype(np.uint8)] on one float sample: the C cast truncates toward
    zero and the result is taken modulo 2^8.  The cast of NaN or of an
    infinity is undefined in C; on x86-64 it yields 0. *)
Definition uint8_of_fval (x : fval) : Z :=
  match x with
  | Fin q => Z.modulo (Z.quot (Qnum q) (Zpos (Qden q))) 256
  | _ => 0%Z
  end.
Definition astype_uint8 (a : farray) : image8 := amap uint8_of_fval a.

(** [img.astype(np.float64)] / [img.astype(np.float32)] on a uint8 image:
    exact. *)
Definition astype_float (a : image8) : farray := amap of_Z a.

(** ** Paths and file names (os.path, POSIX flavour) *)

Definition chars (s : string) : list ascii := list_ascii_of_string s.
Definition text (l : list ascii) : string := string_of_list_ascii l.

Definition slash : ascii := "/"%char.
Definition dot : ascii := "."%char.

(** The text after the last occurrence of [c], if [c] occurs. *)
Fixpoint after_last (c : ascii) (l : list ascii) : option (list ascii) :=
  match l with
  | [] => None
  | x :: l' =>
      match after_last c l' with
      | Some r => Some r
      | None => if Ascii.eqb x c then Some l' else None
      end
  end.

Fixpoint drop_leading (c : ascii) (l : list ascii) : list ascii :=
  match l with
  | [] => []
  | x :: l' => if Ascii.eqb x c then drop_leading c l' else l
  end.

(** os.path.basename(p) *)
Definition basename_chars (p : list ascii) : list ascii :=
  match after_last slash p with
  | Some r => r
  | None => p
  end.
Definition basename (p : string) : string := text (basename_chars (chars p)).

(** os.path.splitext(p)[1]: the text from the last dot of the last path
    component on, unless that dot is one of its leading dots. *)
Definition splitext_ext (p : string) : string :=
  match after_last dot (drop_leading dot (basename_chars (chars p))) with
  | Some r => text (dot :: r)
  | None => EmptyString
  end.

(** str.lower() on ASCII letters. *)
Definition lower_char (c : ascii) : ascii :=
  let n := nat_of_ascii c in
  if (65 <=? n) && (n <=? 90) then ascii_of_nat (n + 32) else c.
Definition lower (s : string) : string := text (map lower_char (chars s)).

(** os.path.join(a, b) *)
Definition path_join (a b : string) : string :=
  match chars b with
  | c :: _ =>
      if Ascii.eqb c slash then b
      else match rev (chars a) with
           | [] => b
           | d :: _ => if Ascii.eqb d slash then (a ++ b)%string
                       else (a ++ "/" ++ b)%string
           end
  | [] =>
      match rev (chars a) with
      | [] => b
      | d :: _ => if Ascii.eqb d slash then a else (a ++ "/")%string
      end
  end.

Definition SUPPORTED_EXTENSIONS : list string :=
  [".jpg"; ".jpeg"; ".png"; ".bmp"; ".tiff"; ".tif"]%string.

(** [os.path.splitext(f)[1].lower() in SUPPORTED_EXTENSIONS] *)
Definition supported (f : string) : bool :=
  existsb (String.eqb (lower (splitext_ext f))) SUPPORTED_EXTENSIONS.

(** ** What extract_fingerprint prints *)

Inductive message : Type :=
| ErrorNoDirectory (dir : string)
| ErrorNoSupportedFiles (dir : string)
| InfoFound (n : nat)
| WarningUnreadable (name : string)
| WarningFailed (name : string) (e : exn)
| ErrorNothingProcessed
| InfoProcessed (done total : nat)
| InfoSeparating
| InfoSuccess.

Definition is_warning (m : message) : bool :=
  match m with
  | WarningUnreadable _ | WarningFailed _ _ => true
  | _ => false
  end.

(** A run of a printing function: what it printed, then how it ended. *)
Definition run (A : Type) : Type := (list message * outcome A)%type.

Definition print {A : Type} (m : message) (k : run A) : run A :=
  (m :: fst k, snd k).
Definition print_all {A : Type} (ms : list message) (k : run A) : run A :=
  (ms ++ fst k, snd k).
Definition finish {A : Type} (o : outcome A) : run A := ([], o).
Definition printed {A : Type} (r : run A) : list message := fst r.
Definition result {A : Type} (r : run A) : outcome A := snd r.

(** A tuple (width, height), as OpenCV takes sizes. *)
Definition size : Type := (nat * nat)%type.

(** * camera_analyzer.py *)

Section CameraAnalyzer.

(** The file system as the run sees it. *)
(** os.listdir(dir) *)
Variable listdir : string -> outcome (list string).
(** cv2.imread(path, cv2.IMREAD_GRAYSCALE): [None] when the file cannot be
    read or decoded. *)
Variable imread_grayscale : string -> option image8.

(** cv2.resize(img, dsize, interpolation=cv2.INTER_AREA) on a uint8 image *)
Variable resize_area : image8 -> size -> outcome image8.
(** cv2.GaussianBlur(a, ksize, 0) on a float64 array *)
Variable GaussianBlur : farray -> size -> outcome farray.

(** Lines 57-74: the body of the loop over [image_paths], one image.  The
    state is the accumulator and [processed_image_count]; an image that
    cannot be read, or whose resize or accumulation raises, leaves the
    state unchanged and prints a warning. *)
Definition accumulate_one (process_resolution : size) (path : string)
  (accumulator : farray) (processed_image_count : nat)
  : list message * (farray * nat) :=
  match imread_grayscale path with
  | None =>
      ([WarningUnreadable (basename path)], (accumulator, processed_image_count))
  | Some img =>
      match (img_resized <- resize_area img process_resolution ;;
             np_add accumulator (astype_float img_resized))%py with
      | Returned accumulator' => ([], (accumulator', S processed_image_count))
      | Raised e =>
          ([WarningFailed (basename path) e], (accumulator, processed_image_count))
      end
  end.

(** Lines 56-74: the loop. *)
Fixpoint accumulate_images (process_resolution : size) (image_paths : list string)
  (accumulator : farray) (processed_image_count : nat)
  : list message * (farray * nat) :=
  match image_paths with
  | [] => ([], (accumulator, processed_image_count))
  | path :: rest =>
      let '(warnings, (accumulator', count')) :=
        accumulate_one process_resolution path accumulator processed_image_count in
      let '(warnings', final) :=
        accumulate_images process_resolution rest accumulator' count' in
      (warnings ++ warnings', final)
  end.

(** Lines 35-39: the candidate paths. *)
Definition candidate_paths (raw_images_dir : string) (names : list string)
  : list string :=
  map (path_join raw_images_dir) (filter supported names).

(** Lines 84-93: the low/high frequency split of the average image. *)
Definition separate (average_image : farray) (blur_kernel_size : size)
  : outcome (farray * farray) :=
  (vignetting_map <- GaussianBlur average_image blur_kernel_size ;;
   noise_map <- np_sub average_image vignetting_map ;;
   Returned (vignetting_map, noise_map))%py.

(** extract_fingerprint.  [Returned None] is the pair (None, None);
    [Returned (Some (v, n))] is (vignetting_map, noise_map). *)
Definition extract_fingerprint (raw_images_dir : string)
  (process_resolution : size) (blur_kernel_size : size)
  : run (option (farray * farray)) :=
  match listdir raw_images_dir with
  | Raised FileNotFoundError =>
      print (ErrorNoDirectory raw_images_dir) (finish (Returned None))
  | Raised e => finish (Raised e)
  | Returned names =>
      let image_paths := candidate_paths raw_images_dir names in
      match image_paths with
      | [] => print (ErrorNoSupportedFiles raw_images_dir) (finish (Returned None))
      | _ :: _ =>
          print (InfoFound (length image_paths))
          (let accumulator := zeros (snd process_resolution) (fst process_resolution) in
           let '(warnings, (accumulator, processed_image_count)) :=
             accumulate_images process_resolution image_paths accumulator 0 in
           print_all warnings
           (if processed_image_count =? 0
            then print ErrorNothingProcessed (finish (Returned None))
            else
              print (InfoProcessed processed_image_count (length image_paths))
              (let average_image :=
                 np_div_scalar accumulator (of_Z (Z.of_nat processed_image_count)) in
               print InfoSeparating
               match separate average_image blur_kernel_size with
               | Raised e => finish (Raised e)
               | Returned fingerprint =>
                   print InfoSuccess (finish (Returned (Some fingerprint)))
               end)))
      end
  end.

End CameraAnalyzer.

(** * style_applicator.py *)

(** A decoded clean image: 2-D luminance, or 3-channel BGR. *)
Inductive picture : Type :=
| Gray (px : image8)
| Color (px : ndarray (Z * Z * Z)).


(** Line 71: [v / v.max()] *)
Definition normalize (vignette_resized : farray) : outcome farray :=
  (peak <- np_max vignette_resized ;;
   Returned (np_div_scalar vignette_resized peak))%py.

(** Line 85: [np.clip(a, 0, 255).astype(np.uint8)] *)
Definition to_display (a : farray) : image8 :=
  astype_uint8 (np_clip a fzero (of_Z 255)).

Section StyleApplicator.

(** cv2.cvtColor(img, cv2.COLOR_BGR2GRAY) on a uint8 image *)
Variable cvtColor_BGR2GRAY : ndarray (Z * Z * Z) -> outcome image8.
(** cv2.resize(a, dsize, interpolation=cv2.INTER_CUBIC) on a float array *)
Variable resize_cubic : farray -> size -> outcome farray.

(** Lines 56-60: [len(clean_image.shape) > 2] holds exactly for [Color]. *)
Definition to_gray (clean_image : picture) : outcome image8 :=
  match clean_image with
  | Color bgr => cvtColor_BGR2GRAY bgr
  | Gray g => Returned g
  end.

(** The two maps keep their dtype up to lines 77 and 81: cv2.resize, the
    division by the maximum and the product with the Python float
    noise_alpha return arrays of the dtype they are given.  The image is
    float32 (line 74), so cv2.multiply accepts only a float32 vignetting map
    and cv2.add only a float32 noise map. *)
Definition apply_style (clean_image : picture)
  (vignetting_map noise_map : tarray) (noise_alpha : fval) : outcome image8 :=
  (clean_image_gray <- to_gray clean_image ;;
   let target_resolution := (width clean_image_gray, height clean_image_gray) in
   vignette_resized <- resize_cubic (samples vignetting_map) target_resolution ;;
   noise_resized <- resize_cubic (samples noise_map) target_resolution ;;
   vignette_normalized <- normalize vignette_resized ;;
   let image_float := typed Float32 (astype_float clean_image_gray) in
   image_with_vignette <-
     cv2_multiply image_float (typed (dtype_of vignetting_map) vignette_normalized) ;;
   final_image_float <-
     cv2_add image_with_vignette
       (typed (dtype_of noise_map) (np_mul_scalar noise_resized noise_alpha)) ;;
   Returned (to_display (samples final_image_float)))%py.

(** The computation of [apply_style] with the additive step (line 81) left
    out: the clamped product of the luminance image and the normalized
    vignetting field. *)
Definition vignette_only (clean_image : picture)
  (vignetting_map noise_map : tarray) : outcome image8 :=
  (clean_image_gray <- to_gray clean_image ;;
   let target_resolution := (width clean_image_gray, height clean_image_gray) in
   vignette_resized <- resize_cubic (samples vignetting_map) target_resolution ;;
   noise_resized <- resize_cubic (samples noise_map) target_resolution ;;
   vignette_normalized <- normalize vignette_resized ;;
   let image_float := typed Float32 (astype_float clean_image_gray) in
   image_with_vignette <-
     cv2_multiply image_float (typed (dtype_of vignetting_map) vignette_normalized) ;;
   Returned (to_display (samples image_with_vignette)))%py.

End StyleApplicator.

(** * Executable instances of the OpenCV primitives

    The properties below are proved for every instance of the primitives
    that meets the part of the OpenCV contract they name.  [Ref] provides
    instances to run the pipeline on concrete inputs.  They are separable
    resampling filters in exact arithmetic: a target sample is a weighted
    sum of source samples, the weights of one target sample adding up to 1.
    OpenCV computes the same sums in floating point, so its results agree
    with these only up to rounding: resized to another size, a uniform
    field stays exactly uniform here and only approximately so there, and
    no property relies on it.  Resized to the size it has, an array is
    copied, here as there.  No property is stated of [Ref]; it supplies the
    concrete runs. *)

Module Ref.

Definition qc (n : Z) (d : positive) : Qc := Q2Qc (n # d).

(** A source index and its weight. *)
Definition tap : Type := (nat * Qc)%type.

Definition weighted (taps : list tap) (row : list fval) : fval :=
  fold_right
    (fun t acc => fadd (fmul (Fin (snd t)) (nth (fst t) row NaN)) acc)
    fzero taps.

(** [plan_y] and [plan_x] give the taps of each target row and column. *)
Definition resample (plan_y plan_x : list (list tap)) (a : farray) : farray :=
  map (fun ty => map (fun tx => weighted ty (map (weighted tx) a)) plan_x) plan_y.

(** The sum of the weights of one target sample. *)
Definition weight_sum (taps : list tap) : Qc :=
  fold_right (fun t acc => (snd t + acc)%Qc) 0%Qc taps.

(** A plan reads only samples the source has. *)
Definition in_range (n : nat) (plan : list (list tap)) : Prop :=
  Forall (Forall (fun t : tap => fst t < n)) plan.

(** The weights of every target sample add up to 1. *)
Definition unit_weights (plan : list (list tap)) : Prop :=
  Forall (fun taps => weight_sum taps = 1%Qc) plan.

Definition kernel_sum (kernel : list Qc) : Qc :=
  fold_right Qcplus 0%Qc kernel.

Definition is_empty {T : Type} (a : ndarray T) : bool :=
  (height a =? 0) || (width a =? 0).

(** Border replication: an index outside [0, n) is moved to the nearest
    valid one. *)
Definition clamp_index (n : nat) (i : Z) : nat :=
  Z.to_nat (Z.max 0 (Z.min i (Z.of_nat n - 1))).

(** INTER_CUBIC: the four weights at fractional offset [t] (Keys' kernel
    with A = -3/4). *)
Definition cubic_weights (t : Qc) : list Qc :=
  let A := qc (-3) 4 in
  let w0 := (((A * (t + 1) - qc 5 1 * A) * (t + 1) + qc 8 1 * A) * (t + 1)
             - qc 4 1 * A)%Qc in
  let w1 := (((A + qc 2 1) * t - (A + qc 3 1)) * t * t + 1)%Qc in
  let w2 := (((A + qc 2 1) * (1 - t) - (A + qc 3 1)) * (1 - t) * (1 - t) + 1)%Qc in
  [w0; w1; w2; (1 - w0 - w1 - w2)%Qc].

(** Target index [d] of [dn] samples over a source of [sn] samples: the
    source coordinate is (d + 1/2) * sn/dn - 1/2. *)
Definition cubic_taps (sn dn d : nat) : list tap :=
  let fx := ((Qc_of_Z (Z.of_nat d) + qc 1 2)
             * (Qc_of_Z (Z.of_nat sn) / Qc_of_Z (Z.of_nat dn)) - qc 1 2)%Qc in
  let s := Qfloor fx in
  let t := (fx - Qc_of_Z s)%Qc in
  combine (map (clamp_index sn) [s - 1; s; s + 1; s + 2]%Z) (cubic_weights t).

Definition cubic_plan (sn dn : nat) : list (list tap) :=
  map (cubic_taps sn dn) (seq 0 dn).

(** cv2.resize(a, (w, h), interpolation=cv2.INTER_CUBIC): an empty source
    or an empty target size is an error, and a source that has the target
    size already is copied. *)
Definition resize_cubic (a : farray) (dsize : size) : outcome farray :=
  let '(w, h) := dsize in
  if is_empty a || (w =? 0) || (h =? 0) then Raised Cv2Error
  else if (height a =? h) && (width a =? w) then Returned a
  else Returned (resample (cubic_plan (height a) h) (cubic_plan (width a) w) a).

(** INTER_AREA: target sample [d] averages the source samples its footprint
    [d * sn/dn, (d + 1) * sn/dn) touches.  When [sn] is a multiple of [dn]
    this is OpenCV's box average; otherwise OpenCV weighs the two partly
    covered samples by the covered fraction, here they count whole. *)
Definition area_taps (sn dn d : nat) : list tap :=
  let start := (d * sn) / dn in
  let stop := ((d + 1) * sn + dn - 1) / dn in
  let count := stop - start in
  map (fun i => (i, (/ Qc_of_Z (Z.of_nat count))%Qc)) (seq start count).

Definition area_plan (sn dn : nat) : list (list tap) :=
  map (area_taps sn dn) (seq 0 dn).

(** cvRound: to the nearest integer, ties to even. *)
Definition round_half_even (q : Qc) : Z :=
  let f := Qfloor q in
  match ((q - Qc_of_Z f) ?= qc 1 2)%Qc with
  | Lt => f
  | Gt => f + 1
  | Eq => if Z.even f then f else f + 1
  end%Z.

(** 2^z *)
Definition pow2 (z : Z) : Qc :=
  if (0 <=? z)%Z then Qc_of_Z (2 ^ z) else (/ Qc_of_Z (2 ^ (- z)))%Qc.

(** floor (log2 q) for q > 0 *)
Definition ilog2 (q : Qc) : Z :=
  let k := (Z.log2 (Qnum q) - Z.log2 (Zpos (Qden q)))%Z in
  match (pow2 k ?= q)%Qc with
  | Gt => (k - 1)%Z
  | _ => k
  end.

(** [x.astype(np.float32)] on one sample: the nearest binary32 number, ties
    to even.  A binary32 number has 24 significant bits and the exponent of
    its leading bit lies between -126 and 127; below, the subnormal numbers
    come in steps of 2^-149; from 2^128 on the result is an infinity. *)
Definition float32 (x : fval) : fval :=
  match x with
  | Fin q =>
      let round (a : Qc) : option Qc :=
        let e := Z.max (-126) (ilog2 a) in
        let ulp := pow2 (e - 23) in
        let r := (Qc_of_Z (round_half_even (a / ulp)) * ulp)%Qc in
        match (r ?= pow2 128)%Qc with
        | Lt => Some r
        | _ => None
        end in
      match (q ?= Qc_of_Z 0)%Qc with
      | Eq => x
      | Gt => match round q with Some r => Fin r | None => PInf end
      | Lt => match round (- q)%Qc with Some r => Fin (- r)%Qc | None => NInf end
      end
  | _ => x
  end.

(** saturate_cast<uchar> *)
Definition saturate_uint8 (x : fval) : Z :=
  match x with
  | Fin q => Z.max 0 (Z.min 255 (round_half_even q))
  | _ => 0%Z
  end.

Definition resize_area (img : image8) (dsize : size) : outcome image8 :=
  let '(w, h) := dsize in
  if is_empty img || (w =? 0) || (h =? 0) then Raised Cv2Error
  else Returned (amap saturate_uint8
                   (resample (area_plan (height img) h) (area_plan (width img) w)
                      (astype_float img))).

(** BORDER_REFLECT_101: ... c b | a b c d | c b ... *)
Definition reflect101 (n : nat) (i : Z) : nat :=
  if n <=? 1 then 0
  else
    let p := (2 * (Z.of_nat n - 1))%Z in
    let m := (i mod p)%Z in
    Z.to_nat (if (m <? Z.of_nat n)%Z then m else (p - m)%Z).

Fixpoint pascal_row (n : nat) : list Z :=
  match n with
  | 0 => [1%Z]
  | S n' =>
      let r := pascal_row n' in
      map (fun ab => (fst ab + snd ab)%Z) (combine (0%Z :: r) (r ++ [0%Z]))
  end.

(** getGaussianKernel(k, sigma = 0).  For k = 1, 3, 5, 7 OpenCV uses fixed
    taps: [1], [1 2 1]/4, [1 4 6 4 1]/16 and [2 7 14 18 14 7 2]/64.  For a
    larger odd k it samples exp(-x^2 / 2 sigma^2), which is irrational; the
    binomial row of the same length stands in for it.  An even or zero k is
    an error. *)
Definition gaussian_kernel (k : nat) : option (list Qc) :=
  if Nat.even k then None
  else if k =? 7
       then Some (map (fun c => qc c 64) [2; 7; 14; 18; 14; 7; 2]%Z)
       else Some (map (fun c => (Qc_of_Z c / Qc_of_Z (2 ^ Z.of_nat (k - 1)))%Qc)
                    (pascal_row (k - 1))).

Definition blur_taps (kernel : list Qc) (n d : nat) : list tap :=
  let r := Z.of_nat ((length kernel - 1) / 2) in
  map (fun jw => (reflect101 n (Z.of_nat d + Z.of_nat (fst jw) - r), snd jw))
    (combine (seq 0 (length kernel)) kernel).

Definition blur_plan (kernel : list Qc) (n : nat) : list (list tap) :=
  map (blur_taps kernel n) (seq 0 n).

(** cv2.GaussianBlur(a, (kw, kh), 0) *)
Definition GaussianBlur (a : farray) (ksize : size) : outcome farray :=
  let '(kw, kh) := ksize in
  match gaussian_kernel kw, gaussian_kernel kh with
  | Some kx, Some ky =>
      if is_empty a then Raised Cv2Error
      else Returned (resample (blur_plan ky (height a)) (blur_plan kx (width a)) a)
  | _, _ => Raised Cv2Error
  end.

(** COLOR_BGR2GRAY on 8-bit samples: 0.114 B + 0.587 G + 0.299 R in 14-bit
    fixed point, rounded. *)
Definition bgr2gray (p : Z * Z * Z) : Z :=
  let '(b, g, r) := p in
  Z.shiftr (b * 1868 + g * 9617 + r * 4899 + 8192) 14.

Definition cvtColor_BGR2GRAY (c : ndarray (Z * Z * Z)) : outcome image8 :=
  if is_empty c then Raised Cv2Error else Returned (amap bgr2gray c).

End Ref.

(** * Notions the properties are stated with *)

(** [a[i][j]] *)
Definition pixel (a : farray) (i j : nat) : fval := nth j (nth i a []) NaN.

(** The [h] x [w] array whose sample at (i, j) is [f i j]. *)
Definition tabulate {T : Type} (h w : nat) (f : nat -> nat -> T) : ndarray T :=
  map (fun i => map (fun j => f i j) (seq 0 w)) (seq 0 h).

Definition has_shape {T : Type} (h w : nat) (a : ndarray T) : bool :=
  (length a =? h) && forallb (fun row => length row =? w) a.

(** What one candidate contributes to the accumulator: the resized image as
    floats, when the file decodes and the resize returns an image of the
    processing resolution; nothing otherwise. *)
Definition usable_sample (imread_grayscale : string -> option image8)
  (resize_area : image8 -> size -> outcome image8)
  (process_resolution : size) (path : string) : option farray :=
  match imread_grayscale path with
  | None => None
  | Some img =>
      match resize_area img process_resolution with
      | Raised _ => None
      | Returned r =>
          if has_shape (snd process_resolution) (fst process_resolution) r
          then Some (astype_float r) else None
      end
  end.

Fixpoint usable_samples (imread_grayscale : string -> option image8)
  (resize_area : image8 -> size -> outcome image8)
  (process_resolution : size) (paths : list string) : list farray :=
  match paths with
  | [] => []
  | p :: rest =>
      match usable_sample imread_grayscale resize_area process_resolution p with
      | Some s => s :: usable_samples imread_grayscale resize_area process_resolution rest
      | None => usable_samples imread_grayscale resize_area process_resolution rest
      end
  end.

(** The candidates that contribute nothing, in order. *)
Definition failing_paths (imread_grayscale : string -> option image8)
  (resize_area : image8 -> size -> outcome image8)
  (process_resolution : size) (paths : list string) : list string :=
  filter
    (fun p =>
       match usable_sample imread_grayscale resize_area process_resolution p with
       | Some _ => false
       | None => true
       end) paths.

(** The sum of the samples at (i, j), in accumulation order. *)
Definition pixel_sum (samples : list farray) (i j : nat) : fval :=
  fold_left fadd (map (fun s => pixel s i j) samples) fzero.

(** The mean of a batch of [h] x [w] samples: the sum over the batch divided
    by the number of samples in it. *)
Definition mean_image (h w : nat) (samples : list farray) : farray :=
  tabulate h w
    (fun i j => fdiv (pixel_sum samples i j) (of_Z (Z.of_nat (length samples)))).

(** The file a warning is about. *)
Definition warned_name (m : message) : option string :=
  match m with
  | WarningUnreadable name | WarningFailed name _ => Some name
  | _ => None
  end.


Definition in_uint8_range (z : Z) : Prop := (0 <= z <= 255)%Z.

(** The pixel dimensions (height, width) of a decoded image. *)
Definition pixels (img : picture) (h w : nat) : Prop :=
  match img with
  | Gray px => rect h w px
  | Color px => rect h w px
  end.

(** What line 85 does to one sample when nothing wraps around: the sample is
    clamped to [0, 255] and its fraction dropped. *)
Definition clamped_floor (x : fval) : Z :=
  match x with
  | Fin q => Z.max 0 (Z.min 255 (Qfloor q))
  | PInf => 255
  | NInf => 0
  | NaN => 0
  end%Z.

(** Two samples with the same value. *)
Definition same_value (x y : fval) : bool :=
  match x, y with
  | Fin a, Fin b => Qeq_bool a b
  | PInf, PInf | NInf, NInf | NaN, NaN => true
  | _, _ => false
  end.

(** ** A small file system to run the extraction on *)

Module Disk.

Definition dir : string := "raw"%string.

Definition listdir (d : string) : outcome (list string) :=
  if String.eqb d dir
  then Returned ["a.png"; "broken.JPG"; "notes.txt"; "c.bmp"]%string
  else Raised FileNotFoundError.

(** [broken.JPG] does not decode. *)
Definition imread_grayscale (path : string) : option image8 :=
  if String.eqb path "raw/a.png" then Some [[10; 20]; [30; 40]]%Z
  else if String.eqb path "raw/c.bmp"
       then Some [[0; 4; 100; 104]; [8; 12; 108; 112];
                  [200; 204; 50; 54]; [208; 212; 58; 62]]%Z
       else None.

(** What the extraction returns on [dir] at 2 x 2 with a 3 x 3 kernel. *)
Definition fingerprint : farray * farray :=
  match result (extract_fingerprint listdir imread_grayscale
                  Ref.resize_area Ref.GaussianBlur dir (2, 2) (3, 3)) with
  | Returned (Some fp) => fp
  | _ => ([], [])
  end.

(** A directory in which nothing decodes. *)
Definition broken_listdir (d : string) : outcome (list string) :=
  Returned ["x.png"; "y.jpeg"]%string.

Definition broken_imread (path : string) : option image8 := None.

(** Ten files, each a 2 x 3 image of gray level 128. *)
Definition gray_listdir (d : string) : outcome (list string) :=
  Returned ["0.png"; "1.png"; "2.png"; "3.png"; "4.png";
            "5.png"; "6.png"; "7.png"; "8.png"; "9.png"]%string.

Definition gray_imread (path : string) : option image8 :=
  Some (full 2 3 128%Z).

End Disk.

(** * Persistence and the command line: save_maps, load_maps, main.py *)

(** What a call of the tool can raise: an exception of a library call, or
    the KeyError or TypeError of a subscript [v[k]]. *)
Inductive error : Type :=
| Lib (e : exn)
| KeyError (key : string)
| TypeError.

(** How a call of the tool ends: it returns, it raises an Exception, or it
    leaves through exit(code).  SystemExit is not an Exception: a handler
    [except Exception] lets it pass. *)
Inductive ending (A : Type) : Type :=
| Finished (a : A)
| Threw (e : error)
| Exited (code : Z).

Arguments Finished {A} a.
Arguments Threw {A} e.
Arguments Exited {A} code.

(** What the tool prints. *)
Inductive notice : Type :=
| FromExtraction (m : message)
| SavedVignetting (path : string)
| SavedNoise (path : string)
| SavedNormalized (path : string)
| SaveFailed (e : error)
| FingerprintFilesMissing (dir : string)
| HintRunAnalyzer
| FingerprintLoaded
| FingerprintLoadFailed (e : error)
| LoadingConfig (path : string)
| ConfigNotFound (path : string)
| ConfigInvalid (e : exn)
| ExtractionStarts
| ExtractionDone
| ExtractionFailed
| ApplicationStarts
| ApplicationWithoutFingerprint
| CleanDirectoryMissing (dir : string)
| CleanDirectoryCreated
| NoCleanImages (dir : string)
| FoundCleanImages (n : nat)
| ImageFailed (name : string) (e : error)
| ApplicationDone (dir : string).

(** A dictionary with string keys; [d[k]] is the first binding of [k]. *)
Definition dict (V : Type) : Type := list (string * V).

Fixpoint lookup {V : Type} (d : dict V) (k : string) : option V :=
  match d with
  | [] => None
  | (k', v) :: d' => if String.eqb k' k then Some v else lookup d' k
  end.

(** A value the tool subscripts with a string key: a mapping, or anything
    else that yaml.safe_load can return in its place (None for an empty
    document or an empty section, a number, a string, a sequence), on which
    [v[k]] raises TypeError. *)
Inductive subscripted (M : Type) : Type :=
| Mapping (m : M)
| NotAMapping.

Arguments Mapping {M} m.
Arguments NotAMapping {M}.

(** The three sections of a configuration: each may be missing, and each
    may be something else than a mapping.  The values under the keys have
    the types the tool expects. *)
Record config : Type := {
  paths : option (subscripted (dict string));
  analyzer : option (subscripted (dict size));
  applicator : option (subscripted (dict fval))
}.

(** What yaml.safe_load returns: a mapping with its sections, or not a
    mapping (None for an empty file). *)
Definition document : Type := subscripted config.

Inductive action : Type := Extract | Apply | All.

(** main.py, line 76: the extensions run_application accepts. *)
Definition CLEAN_EXTENSIONS : list string := [".jpg"; ".jpeg"; ".png"]%string.

Definition clean_supported (f : string) : bool :=
  existsb (String.eqb (lower (splitext_ext f))) CLEAN_EXTENSIONS.

Declare Scope tool_scope.
Delimit Scope tool_scope with tool.

Section Tool.

(** The state of the file system. *)
Variable disk : Type.

(** os.listdir, os.path.exists, os.makedirs(path, exist_ok=True) *)
Variable listdir : disk -> string -> outcome (list string).
Variable path_exists : disk -> string -> bool.
Variable makedirs : disk -> string -> outcome disk.
(** cv2.imread(path, cv2.IMREAD_GRAYSCALE), cv2.imread(path),
    cv2.imread(path, cv2.IMREAD_UNCHANGED) on an EXR file *)
Variable imread_grayscale : disk -> string -> option image8.
Variable imread_color : disk -> string -> option (ndarray (Z * Z * Z)).
Variable imread_unchanged : disk -> string -> outcome (option tarray).
(** cv2.imwrite of a float array and of a uint8 image: it returns whether
    the file was written, or raises. *)
Variable imwrite_float : disk -> string -> tarray -> outcome (bool * disk).
Variable imwrite : disk -> string -> image8 -> outcome (bool * disk).
(** open(config_path) and yaml.safe_load *)
Variable safe_load : disk -> string -> outcome document.
(** The rounding of [a.astype(np.float32)] on one sample. *)
Variable float32 : fval -> fval.

Variable resize_area : image8 -> size -> outcome image8.
Variable GaussianBlur : farray -> size -> outcome farray.
Variable cvtColor_BGR2GRAY : ndarray (Z * Z * Z) -> outcome image8.
Variable resize_cubic : farray -> size -> outcome farray.

(** A computation of the tool: from a disk, what it prints, the disk it
    leaves and how it ends. *)
Definition tool (A : Type) : Type := disk -> list notice * disk * ending A.

Definition ret {A : Type} (a : A) : tool A := fun d => ([], d, Finished a).

Definition then_ {A B : Type} (m : tool A) (k : A -> tool B) : tool B :=
  fun d =>
    match m d with
    | (ns, d', Finished a) =>
        let '(ns', d'', r) := k a d' in (ns ++ ns', d'', r)
    | (ns, d', Threw e) => (ns, d', Threw e)
    | (ns, d', Exited code) => (ns, d', Exited code)
    end.

Notation "x <- m ;; k" := (then_ m (fun x => k))
  (at level 61, m at next level, right associativity) : tool_scope.
Notation "m ;; k" := (then_ m (fun _ => k))
  (at level 61, right associativity) : tool_scope.

Definition say (n : notice) : tool unit := fun d => ([n], d, Finished tt).
Definition say_all (ns : list notice) : tool unit := fun d => (ns, d, Finished tt).
Definition throw {A : Type} (e : error) : tool A := fun d => ([], d, Threw e).
Definition exit {A : Type} (code : Z) : tool A := fun d => ([], d, Exited code).

(** [try: m except Exception as e: h e] *)
Definition try_except {A : Type} (m : tool A) (h : error -> tool A) : tool A :=
  fun d =>
    match m d with
    | (ns, d', Threw e) => let '(ns', d'', r) := h e d' in (ns ++ ns', d'', r)
    | r => r
    end.

(** A library call that reads the disk. *)
Definition reading {A : Type} (f : disk -> outcome A) : tool A :=
  fun d =>
    match f d with
    | Returned a => ([], d, Finished a)
    | Raised e => ([], d, Threw (Lib e))
    end.

(** A library call that changes the disk. *)
Definition writing {A : Type} (f : disk -> outcome (A * disk)) : tool A :=
  fun d =>
    match f d with
    | Returned (a, d') => ([], d', Finished a)
    | Raised e => ([], d, Threw (Lib e))
    end.

Definition os_makedirs (path : string) : tool unit :=
  writing (fun d => match makedirs d path with
                    | Returned d' => Returned (tt, d')
                    | Raised e => Raised e
                    end).

(** [s[k]] on a section *)
Definition item {V : Type} (s : subscripted (dict V)) (k : string) : tool V :=
  match s with
  | NotAMapping => throw TypeError
  | Mapping d =>
      match lookup d k with
      | Some v => ret v
      | None => throw (KeyError k)
      end
  end.

(** [config[k]] for the three sections; [get] reads the section [k]. *)
Definition section {S : Type} (cfg : document) (get : config -> option S)
  (k : string) : tool S :=
  match cfg with
  | NotAMapping => throw TypeError
  | Mapping sections =>
      match get sections with
      | Some s => ret s
      | None => throw (KeyError k)
      end
  end.

(** [a.astype(np.float32)] *)
Definition astype_float32 (a : farray) : tarray := typed Float32 (amap float32 a).

(** camera_analyzer.py, save_maps (lines 96-130) *)
Definition save_maps (vignetting_map noise_map : farray) (output_dir : string)
  : tool unit :=
  (os_makedirs output_dir ;;
   let vignetting_path := path_join output_dir "vignetting_map.exr" in
   let noise_path := path_join output_dir "noise_map.exr" in
   let vignetting_normalized_path :=
     path_join output_dir "vignetting_map_normalized.exr" in
   normalized_vignette <- reading (fun _ => normalize vignetting_map) ;;
   try_except
     (writing (fun d => imwrite_float d vignetting_path
                          (astype_float32 vignetting_map)) ;;
      writing (fun d => imwrite_float d noise_path (astype_float32 noise_map)) ;;
      writing (fun d => imwrite_float d vignetting_normalized_path
                          (astype_float32 normalized_vignette)) ;;
      say (SavedVignetting vignetting_path) ;;
      say (SavedNoise noise_path) ;;
      say (SavedNormalized vignetting_normalized_path))
     (fun e => say (SaveFailed e)))%tool.

(** style_applicator.py, load_maps (lines 6-35) *)
Definition load_maps (fingerprint_dir : string)
  : tool (option tarray * option tarray) :=
  (let vignetting_path := path_join fingerprint_dir "vignetting_map.exr" in
   let noise_path := path_join fingerprint_dir "noise_map.exr" in
   missing <- reading (fun d => Returned (negb (path_exists d vignetting_path)
                                          || negb (path_exists d noise_path))) ;;
   if (missing : bool)
   then say (FingerprintFilesMissing fingerprint_dir) ;;
        say HintRunAnalyzer ;;
        ret (None, None)
   else
     try_except
       (vignetting_map <- reading (fun d => imread_unchanged d vignetting_path) ;;
        noise_map <- reading (fun d => imread_unchanged d noise_path) ;;
        say FingerprintLoaded ;;
        ret (vignetting_map, noise_map))
       (fun e => say (FingerprintLoadFailed e) ;; ret (None, None)))%tool.

(** main.py, load_config (lines 12-24) *)
Definition load_config (config_path : string) : tool document :=
  (say (LoadingConfig config_path) ;;
   fun d =>
     match safe_load d config_path with
     | Returned c => ([], d, Finished c)
     | Raised FileNotFoundError => ([ConfigNotFound config_path], d, Exited 1)
     | Raised e => ([ConfigInvalid e], d, Exited 1)
     end)%tool.

(** The call of extract_fingerprint on the current disk. *)
Definition call_extract_fingerprint (raw_images_dir : string)
  (process_resolution blur_kernel_size : size) : tool (option (farray * farray)) :=
  fun d =>
    let r := extract_fingerprint (listdir d) (imread_grayscale d)
               resize_area GaussianBlur
               raw_images_dir process_resolution blur_kernel_size in
    (map FromExtraction (printed r), d,
     match result r with
     | Returned fp => Finished fp
     | Raised e => Threw (Lib e)
     end).

(** main.py, run_extraction (lines 26-50) *)
Definition run_extraction (config : document) : tool unit :=
  (say ExtractionStarts ;;
   paths <- section config paths "paths" ;;
   analyzer_params <- section config analyzer "analyzer" ;;
   raw_images_dir <- item paths "raw_images_dir" ;;
   output_dir <- item paths "output_dir" ;;
   fingerprint_subdir <- item paths "fingerprint_subdir" ;;
   let fingerprint_output_dir := path_join output_dir fingerprint_subdir in
   process_resolution <- item analyzer_params "process_resolution" ;;
   gaussian_blur_kernel <- item analyzer_params "gaussian_blur_kernel" ;;
   fingerprint <- call_extract_fingerprint raw_images_dir
                    process_resolution gaussian_blur_kernel ;;
   match fingerprint with
   | Some (vignette, noise) =>
       save_maps vignette noise fingerprint_output_dir ;;
       say ExtractionDone
   | None =>
       say ExtractionFailed ;;
       exit 1
   end)%tool.

(** main.py, lines 91-110: the body of the loop over the clean images, one
    file. *)
Definition stylize_file (clean_images_dir stylized_output_dir : string)
  (vignette noise : tarray) (applicator_params : subscripted (dict fval))
  (filename : string) : tool unit :=
  try_except
    (let clean_img_path := path_join clean_images_dir filename in
     clean_img <- reading (fun d => Returned (imread_color d clean_img_path)) ;;
     match clean_img with
     | None => ret tt
     | Some img =>
         noise_alpha <- item applicator_params "noise_alpha" ;;
         stylized_img <-
           reading (fun _ => apply_style cvtColor_BGR2GRAY resize_cubic
                               (Color img) vignette noise noise_alpha) ;;
         let output_path :=
           path_join stylized_output_dir ("stylized_" ++ filename) in
         writing (fun d => imwrite d output_path stylized_img) ;;
         ret tt
     end)%tool
    (fun e => say (ImageFailed filename e)).

Fixpoint stylize_files (clean_images_dir stylized_output_dir : string)
  (vignette noise : tarray) (applicator_params : subscripted (dict fval))
  (clean_image_files : list string) : tool unit :=
  match clean_image_files with
  | [] => ret tt
  | filename :: rest =>
      (stylize_file clean_images_dir stylized_output_dir vignette noise
         applicator_params filename ;;
       stylize_files clean_images_dir stylized_output_dir vignette noise
         applicator_params rest)%tool
  end.

(** main.py, run_application (lines 52-112) *)
Definition run_application (config : document) : tool unit :=
  (say ApplicationStarts ;;
   paths <- section config paths "paths" ;;
   applicator_params <- section config applicator "applicator" ;;
   clean_images_dir <- item paths "clean_images_dir" ;;
   output_dir <- item paths "output_dir" ;;
   fingerprint_subdir <- item paths "fingerprint_subdir" ;;
   let fingerprint_dir := path_join output_dir fingerprint_subdir in
   output_dir' <- item paths "output_dir" ;;
   stylized_subdir <- item paths "stylized_subdir" ;;
   let stylized_output_dir := path_join output_dir' stylized_subdir in
   os_makedirs stylized_output_dir ;;
   fingerprint <- load_maps fingerprint_dir ;;
   match fingerprint with
   | (Some vignette, Some noise) =>
       fun d =>
         match listdir d clean_images_dir with
         | Raised FileNotFoundError =>
             (say (CleanDirectoryMissing clean_images_dir) ;;
              os_makedirs clean_images_dir ;;
              say CleanDirectoryCreated) d
         | Raised e => ([], d, Threw (Lib e))
         | Returned names =>
             let clean_image_files := filter clean_supported names in
             match clean_image_files with
             | [] => say (NoCleanImages clean_images_dir) d
             | _ :: _ =>
                 (say (FoundCleanImages (length clean_image_files)) ;;
                  stylize_files clean_images_dir stylized_output_dir
                    vignette noise applicator_params clean_image_files ;;
                  say (ApplicationDone stylized_output_dir)) d
             end
         end
   | _ =>
       say ApplicationWithoutFingerprint ;;
       exit 1
   end)%tool.

(** main.py, main (lines 114-142), after argparse has accepted the
    arguments. *)
Definition main (act : action) (config_path : string) : tool unit :=
  (cfg <- load_config config_path ;;
   match act with
   | Extract => run_extraction cfg
   | Apply => run_application cfg
   | All => run_extraction cfg ;; run_application cfg
   end)%tool.

End Tool.



(** ** A small store to run the tool on *)

Module Store.

Inductive content : Type :=
| Directory (names : list string)
| Exr (a : tarray)
| Picture (bgr : ndarray (Z * Z * Z))
| Stylized (img : image8)
| Yaml (doc : document)
| Junk.

(** The newest binding of a path is its content. *)
Definition disk : Type := dict content.

Definition listdir (d : disk) (path : string) : outcome (list string) :=
  match lookup d path with
  | Some (Directory names) => Returned names
  | Some _ => Raised OSError
  | None => Raised FileNotFoundError
  end.

Definition path_exists (d : disk) (path : string) : bool :=
  match lookup d path with
  | Some _ => true
  | None => false
  end.

Definition makedirs (d : disk) (path : string) : outcome disk :=
  match lookup d path with
  | Some (Directory _) => Returned d
  | Some _ => Raised OSError
  | None => Returned ((path, Directory []) :: d)
  end.

Definition imread_grayscale (d : disk) (path : string) : option image8 :=
  match lookup d path with
  | Some (Picture bgr) => Some (amap Ref.bgr2gray bgr)
  | Some (Stylized img) => Some img
  | _ => None
  end.

Definition imread_color (d : disk) (path : string) : option (ndarray (Z * Z * Z)) :=
  match lookup d path with
  | Some (Picture bgr) => Some bgr
  | Some (Stylized img) => Some (amap (fun z => (z, z, z)) img)
  | _ => None
  end.

Definition imread_unchanged (d : disk) (path : string) : outcome (option tarray) :=
  match lookup d path with
  | Some (Exr a) => Returned (Some a)
  | _ => Returned None
  end.

Definition imwrite_float (d : disk) (path : string) (a : tarray)
  : outcome (bool * disk) :=
  Returned (true, (path, Exr a) :: d).

Definition imwrite (d : disk) (path : string) (img : image8)
  : outcome (bool * disk) :=
  Returned (true, (path, Stylized img) :: d).

Definition safe_load (d : disk) (path : string) : outcome document :=
  match lookup d path with
  | Some (Yaml doc) => Returned doc
  | Some _ => Raised ValueError
  | None => Raised FileNotFoundError
  end.

Definition locations : dict string :=
  [("raw_images_dir", "raw"); ("clean_images_dir", "clean");
   ("output_dir", "out"); ("fingerprint_subdir", "fp");
   ("stylized_subdir", "styled")]%string.

Definition settings : config := {|
  paths := Some (Mapping locations);
  analyzer := Some (Mapping [("process_resolution", (2, 2));
                             ("gaussian_blur_kernel", (3, 3))]%string);
  applicator := Some (Mapping [("noise_alpha", of_Z 1)]%string)
|}.

(** Two raw images, one of them corrupt, and two clean images, one of them
    corrupt. *)
Definition fresh : disk :=
  [("config.yaml", Yaml (Mapping settings));
   ("raw", Directory ["a.png"; "broken.jpg"]);
   ("raw/a.png", Picture [[(10, 10, 10); (20, 20, 20)];
                           [(30, 30, 30); (40, 40, 40)]]%Z);
   ("raw/broken.jpg", Junk);
   ("clean", Directory ["x.png"; "y.bmp"; "z.jpg"]);
   ("clean/x.png", Picture [[(100, 100, 100); (200, 200, 200)]]%Z);
   ("clean/y.bmp", Picture [[(1, 2, 3)]]%Z);
   ("clean/z.jpg", Junk)]%string.

(** [fresh] once a fingerprint has been saved and the directory of the
    stylized images exists. *)
Definition extracted : disk :=
  [("out/fp/vignetting_map.exr", Exr (typed Float32 [[of_Z 2; of_Z 1]]));
   ("out/fp/noise_map.exr", Exr (typed Float32 [[fzero; fzero]]));
   ("out/fp", Directory []);
   ("out/styled", Directory [])]%string ++ fresh.

(** The vignetting file has been overwritten with something that does not
    decode. *)
Definition corrupt : disk :=
  ("out/fp/vignetting_map.exr"%string, Junk) :: extracted.

(** A fingerprint, but no directory of clean images. *)
Definition without_clean : disk :=
  [("config.yaml", Yaml (Mapping settings));
   ("out/fp/vignetting_map.exr", Exr (typed Float32 [[of_Z 2; of_Z 1]]));
   ("out/fp/noise_map.exr", Exr (typed Float32 [[fzero; fzero]]));
   ("out/styled", Directory [])]%string.

(** Only the configuration file. *)
Definition blank : disk := [("config.yaml"%string, Yaml (Mapping settings))].


(** What the extraction returns on [fresh]. *)
Definition fingerprint : farray * farray :=
  match result (extract_fingerprint (listdir fresh) (imread_grayscale fresh)
                  Ref.resize_area Ref.GaussianBlur "raw" (2, 2) (3, 3)) with
  | Returned (Some fp) => fp
  | _ => ([], [])
  end.

(** The array an outcome returned, [[]] when it raised. *)
Definition returned (o : outcome farray) : farray :=
  match o with
  | Returned a => a
  | Raised _ => []
  end.

End Store.

(** * Properties *)

(** ** Control flow *)

Lemma bind_returned (A B : Type) (m : outcome A) (k : A -> outcome B) (b : B) :
  bind m k = Returned b -> exists a, m = Returned a /\ k a = Returned b.
Proof.
  destruct m as [a | e]; simpl; intro H.
  - exists a. split; [reflexivity | exact H].
  - discriminate H.
Qed.

Ltac invert_bind H :=
  let a := fresh "a" in
  let Ha := fresh "Hstep" in
  apply bind_returned in H; destruct H as [a [Ha H]].

(** ** Arithmetic on samples *)

Lemma Qc_of_Z_zero : Qc_of_Z 0 = 0%Qc.
Proof. reflexivity. Qed.

Lemma Qc_of_Z_inj (z : Z) : Qc_of_Z z = Qc_of_Z 0 -> z = 0%Z.
Proof.
  unfold Qc_of_Z. intro H. apply Q2Qc_eq_iff in H.
  unfold Qeq, inject_Z in H. simpl in H. lia.
Qed.

Lemma Qc_of_Z_succ (n : nat) :
  Qc_of_Z (Z.of_nat (S n)) = (Qc_of_Z (Z.of_nat n) + 1)%Qc.
Proof.
  unfold Qc_of_Z, Qcplus. apply Q2Qc_eq_iff.
  rewrite Nat2Z.inj_succ. unfold Z.succ. rewrite inject_Z_plus.
  change (this (Q2Qc (inject_Z (Z.of_nat n)))) with (Qred (inject_Z (Z.of_nat n))).
  change (this 1%Qc) with (Qred 1).
  rewrite !Qred_correct. reflexivity.
Qed.

Lemma Qfloor_Qc_of_Z (z : Z) : Qfloor (Qc_of_Z z) = z.
Proof.
  unfold Qc_of_Z. change (this (Q2Qc (inject_Z z))) with (Qred (inject_Z z)).
  rewrite (Qfloor_comp _ _ (Qred_correct (inject_Z z))). apply Qfloor_Z.
Qed.

Lemma compare_zero_eq (q : Qc) : (q ?= Qc_of_Z 0)%Qc = Eq -> q = 0%Qc.
Proof. intro H. apply Qceq_alt in H. exact H. Qed.

Lemma compare_nonzero (q : Qc) :
  q <> 0%Qc -> (q ?= Qc_of_Z 0)%Qc <> Eq.
Proof. intros Hq H. apply Hq. apply compare_zero_eq. exact H. Qed.

Lemma fdiv_finite (a b : Qc) : b <> 0%Qc -> fdiv (Fin a) (Fin b) = Fin (a / b)%Qc.
Proof.
  intro Hb. simpl. pose proof (compare_nonzero Hb) as Hc.
  destruct (b ?= Qc_of_Z 0)%Qc; [congruence | reflexivity | reflexivity].
Qed.

Lemma fadd_zero_r (x : fval) : fadd x fzero = x.
Proof.
  destruct x as [a | | |]; simpl; try reflexivity.
  rewrite Qc_of_Z_zero, Qcplus_0_r. reflexivity.
Qed.

Lemma fmul_zero_r (x : fval) : finite x -> fmul x fzero = fzero.
Proof.
  destruct x as [a | | |]; simpl; try contradiction. intros _.
  unfold fzero. rewrite Qc_of_Z_zero, Qcmult_0_r. reflexivity.
Qed.

Lemma fadd_fsub_cancel (a b : fval) :
  finite a -> finite b -> fadd b (fsub a b) = a.
Proof.
  destruct a as [a | | |], b as [b | | |]; simpl; try contradiction.
  intros _ _. f_equal. ring.
Qed.

Lemma fleb_fle (x y : fval) : fleb x y = true <-> fle x y.
Proof.
  destruct x as [a | | |], y as [b | | |]; simpl;
    try (split; [intro H; try discriminate H; exact I | intros _; reflexivity]);
    try (split; [intro H; discriminate H | intro H; contradiction]).
  split.
  - intro H. apply Qcle_alt. intro Hc. rewrite Hc in H. discriminate H.
  - intro H. pose proof (proj1 (Qcle_alt a b) H) as H'.
    destruct (a ?= b)%Qc eqn:E; try reflexivity. exfalso. apply H'. reflexivity.
Qed.

Lemma fle_total (a b : Qc) : fle (Fin a) (Fin b) \/ fle (Fin b) (Fin a).
Proof.
  simpl. destruct (Qclt_le_dec a b) as [H | H].
  - left. apply Qclt_le_weak. exact H.
  - right. exact H.
Qed.

(** ** Shapes *)

Lemma zip_with_length (A B C : Type) (f : A -> B -> C) (l1 : list A) :
  forall (l2 : list B) (r : list C),
    zip_with f l1 l2 = Some r -> length l2 = length l1 /\ length r = length l1.
Proof.
  induction l1 as [| x l1 IH]; intros [| y l2] r H; simpl in H; try discriminate H.
  - inversion H. split; reflexivity.
  - destruct (zip_with f l1 l2) as [r' |] eqn:E; [| discriminate H].
    inversion H; subst. destruct (IH _ _ E) as [H1 H2]. simpl. split; congruence.
Qed.

Lemma zip_rows_rect (A B C : Type) (f : A -> B -> C) (h w : nat) (a : ndarray A) :
  forall (b : ndarray B) (c : ndarray C),
    rect h w a -> zip_rows f a b = Some c -> rect h w b /\ rect h w c.
Proof.
  revert h. induction a as [| r a IH]; intros h [| s b] c [Hh Hw] H;
    simpl in H; try discriminate H.
  - inversion H. subst. split; split; simpl; auto.
  - destruct (zip_with f r s) as [t |] eqn:Et; [| discriminate H].
    destruct (zip_rows f a b) as [c' |] eqn:Ec; [| discriminate H].
    inversion H; subst. inversion Hw; subst.
    destruct (zip_with_length _ _ _ Et) as [L1 L2].
    destruct (IH (length a) b c' (conj eq_refl H3) Ec) as [[Hb1 Hb2] [Hc1 Hc2]].
    split; split; simpl; try congruence; constructor; assumption.
Qed.

Lemma has_shape_rect (T : Type) (h w : nat) (a : ndarray T) :
  has_shape h w a = true <-> rect h w a.
Proof.
  unfold has_shape, rect. rewrite andb_true_iff, Nat.eqb_eq, forallb_forall, Forall_forall.
  split; intros [H1 H2]; split; try assumption; intros x Hx.
  - apply Nat.eqb_eq. apply H2. exact Hx.
  - apply Nat.eqb_eq. apply H2. exact Hx.
Qed.

Lemma rect_tabulate_shape (T : Type) (h w : nat) (f : nat -> nat -> T) :
  rect h w (tabulate h w f).
Proof.
  unfold rect, tabulate. split.
  - rewrite length_map, length_seq. reflexivity.
  - apply Forall_forall. intros row Hrow. apply in_map_iff in Hrow.
    destruct Hrow as [i [Hi _]]. subst row. rewrite length_map, length_seq. reflexivity.
Qed.

Lemma list_as_map (T : Type) (d : T) (l : list T) :
  l = map (fun i => nth i l d) (seq 0 (length l)).
Proof.
  induction l as [| x l IH]; simpl; [reflexivity |].
  f_equal. rewrite <- seq_shift, map_map. exact IH.
Qed.

Lemma rect_as_tabulate (h w : nat) (a : farray) :
  rect h w a -> a = tabulate h w (pixel a).
Proof.
  intros [Hh Hw]. unfold tabulate, pixel.
  rewrite (list_as_map [] a) at 1. rewrite Hh.
  apply map_ext_in. intros i Hi. apply in_seq in Hi.
  assert (Hrow : length (nth i a []) = w).
  { rewrite Forall_forall in Hw. apply Hw. apply nth_In. lia. }
  rewrite (list_as_map NaN (nth i a [])) at 1. rewrite Hrow. reflexivity.
Qed.

Lemma repeat_as_map (T : Type) (v : T) (n : nat) :
  repeat v n = map (fun _ => v) (seq 0 n).
Proof.
  induction n as [| n IH]; simpl; [reflexivity |].
  f_equal. rewrite <- seq_shift, map_map. exact IH.
Qed.

Lemma full_as_tabulate (T : Type) (h w : nat) (v : T) :
  full h w v = tabulate h w (fun _ _ => v).
Proof.
  unfold full, tabulate. rewrite repeat_as_map.
  apply map_ext. intros _. apply repeat_as_map.
Qed.

Lemma amap_full (A B : Type) (f : A -> B) (h w : nat) (x : A) :
  amap f (full h w x) = full h w (f x).
Proof. unfold amap, full. rewrite !map_repeat. reflexivity. Qed.

Lemma zip_with_map (A B C : Type) (f : A -> B -> C) (g1 : nat -> A) (g2 : nat -> B)
  (l : list nat) :
  zip_with f (map g1 l) (map g2 l) = Some (map (fun j => f (g1 j) (g2 j)) l).
Proof.
  induction l as [| j l IH]; simpl; [reflexivity |]. rewrite IH. reflexivity.
Qed.

Lemma zip_rows_tabulate (A B C : Type) (f : A -> B -> C) (h w : nat)
  (g1 : nat -> nat -> A) (g2 : nat -> nat -> B) :
  zip_rows f (tabulate h w g1) (tabulate h w g2)
  = Some (tabulate h w (fun i j => f (g1 i j) (g2 i j))).
Proof.
  unfold tabulate. induction (seq 0 h) as [| i l IH]; simpl; [reflexivity |].
  rewrite zip_with_map, IH. reflexivity.
Qed.

Lemma amap_tabulate (A B : Type) (f : A -> B) (h w : nat) (g : nat -> nat -> A) :
  amap f (tabulate h w g) = tabulate h w (fun i j => f (g i j)).
Proof.
  unfold amap, tabulate. rewrite map_map. apply map_ext. intro i.
  rewrite map_map. reflexivity.
Qed.

Lemma tabulate_ext (T : Type) (h w : nat) (f g : nat -> nat -> T) :
  (forall i j, i < h -> j < w -> f i j = g i j) -> tabulate h w f = tabulate h w g.
Proof.
  intro H. unfold tabulate. apply map_ext_in. intros i Hi. apply in_seq in Hi.
  apply map_ext_in. intros j Hj. apply in_seq in Hj. apply H; lia.
Qed.

Lemma all_samples_tabulate (T : Type) (P : T -> Prop) (h w : nat) (f : nat -> nat -> T) :
  (forall i j, i < h -> j < w -> P (f i j)) -> all_samples P (tabulate h w f).
Proof.
  intro H. unfold all_samples, tabulate. apply Forall_forall. intros row Hrow.
  apply in_map_iff in Hrow. destruct Hrow as [i [Hi Hin]]. subst row.
  apply in_seq in Hin. apply Forall_forall. intros x Hx.
  apply in_map_iff in Hx. destruct Hx as [j [Hj Hjn]]. subst x.
  apply in_seq in Hjn. apply H; lia.
Qed.

Lemma pixel_of_all_samples (P : fval -> Prop) (h w : nat) (a : farray) (i j : nat) :
  all_samples P a -> rect h w a -> i < h -> j < w -> P (pixel a i j).
Proof.
  intros Ha [Hh Hw] Hi Hj. unfold pixel.
  assert (Hin : In (nth i a []) a) by (apply nth_In; lia).
  unfold all_samples in Ha. rewrite Forall_forall in Ha, Hw.
  specialize (Ha _ Hin). specialize (Hw _ Hin).
  rewrite Forall_forall in Ha. apply Ha. apply nth_In. lia.
Qed.

Lemma rect_amap (A B : Type) (f : A -> B) (h w : nat) (a : ndarray A) :
  rect h w a -> rect h w (amap f a).
Proof.
  intros [Hh Hw]. unfold rect, amap. split.
  - rewrite length_map. exact Hh.
  - apply Forall_map. eapply Forall_impl; [| exact Hw].
    intros row Hrow. simpl. rewrite length_map. exact Hrow.
Qed.

Lemma all_samples_amap (A B : Type) (f : A -> B) (P : B -> Prop) (a : ndarray A) :
  (forall x, P (f x)) -> all_samples P (amap f a).
Proof.
  intro H. unfold all_samples, amap. apply Forall_map.
  apply Forall_forall. intros row _. apply Forall_map.
  apply Forall_forall. intros x _. apply H.
Qed.

Lemma rect_amap_inv (A B : Type) (f : A -> B) (h w : nat) (a : ndarray A) :
  rect h w (amap f a) -> rect h w a.
Proof.
  unfold rect, amap. rewrite length_map. intros [Hh Hw]. split; [exact Hh |].
  rewrite Forall_map in Hw. eapply Forall_impl; [| exact Hw].
  intros row Hrow. simpl in Hrow. rewrite length_map in Hrow. exact Hrow.
Qed.

Lemma fold_fadd_finite (l : list fval) :
  forall acc, finite acc -> Forall finite l -> finite (fold_left fadd l acc).
Proof.
  induction l as [| x l IH]; intros acc Ha Hl; simpl; [exact Ha |].
  inversion Hl; subst. apply IH; [| assumption].
  destruct acc, x; simpl in *; try contradiction; exact I.
Qed.

Lemma pixel_sum_snoc (gs : list farray) (s : farray) (i j : nat) :
  pixel_sum (gs ++ [s]) i j = fadd (pixel_sum gs i j) (pixel s i j).
Proof. unfold pixel_sum. rewrite map_app, fold_left_app. reflexivity. Qed.

Lemma match_nonempty (A X : Type) (l : list A) (x y : X) :
  l <> [] -> match l with [] => x | _ :: _ => y end = y.
Proof. destruct l; [contradiction | reflexivity]. Qed.

Lemma zip_with_add_sub (a : list fval) :
  forall (b n : list fval),
    Forall finite a -> Forall finite b ->
    zip_with fsub a b = Some n -> zip_with fadd b n = Some a.
Proof.
  induction a as [| x a IH]; intros [| y b] n Ha Hb Hz; simpl in Hz; try discriminate Hz.
  - inversion Hz. reflexivity.
  - destruct (zip_with fsub a b) as [n' |] eqn:E; [| discriminate Hz].
    inversion Hz; subst n. inversion Ha; subst. inversion Hb; subst.
    simpl. rewrite (IH b n') by assumption.
    rewrite fadd_fsub_cancel by assumption. reflexivity.
Qed.

Lemma zip_rows_add_sub (a : farray) :
  forall (b n : farray),
    all_finite a -> all_finite b ->
    zip_rows fsub a b = Some n -> zip_rows fadd b n = Some a.
Proof.
  induction a as [| r a IH]; intros [| s b] n Ha Hb Hz; simpl in Hz; try discriminate Hz.
  - inversion Hz. reflexivity.
  - destruct (zip_with fsub r s) as [t |] eqn:Et; [| discriminate Hz].
    destruct (zip_rows fsub a b) as [n' |] eqn:En; [| discriminate Hz].
    inversion Hz; subst n.
    inversion Ha as [| ? ? Hr Ha']; subst. inversion Hb as [| ? ? Hs Hb']; subst.
    simpl. rewrite (zip_with_add_sub Hr Hs Et). rewrite (IH b n') by assumption.
    reflexivity.
Qed.

Lemma zip_with_finite (f : fval -> fval -> fval) (a : list fval) :
  (forall x y, finite x -> finite y -> finite (f x y)) ->
  forall (b c : list fval),
    Forall finite a -> Forall finite b -> zip_with f a b = Some c -> Forall finite c.
Proof.
  intro Hf. induction a as [| x a IH]; intros [| y b] c Ha Hb Hz; simpl in Hz;
    try discriminate Hz.
  - inversion Hz. constructor.
  - destruct (zip_with f a b) as [c' |] eqn:E; [| discriminate Hz].
    inversion Hz; subst c. inversion Ha; subst. inversion Hb; subst.
    constructor; [apply Hf; assumption | apply (IH b); assumption].
Qed.

Lemma zip_rows_finite (f : fval -> fval -> fval) (a : farray) :
  (forall x y, finite x -> finite y -> finite (f x y)) ->
  forall (b c : farray),
    all_finite a -> all_finite b -> zip_rows f a b = Some c -> all_finite c.
Proof.
  intro Hf. induction a as [| r a IH]; intros [| s b] c Ha Hb Hz; simpl in Hz;
    try discriminate Hz.
  - inversion Hz. constructor.
  - destruct (zip_with f r s) as [t |] eqn:Et; [| discriminate Hz].
    destruct (zip_rows f a b) as [c' |] eqn:Ec; [| discriminate Hz].
    inversion Hz; subst c.
    inversion Ha as [| ? ? Hr Ha']; subst. inversion Hb as [| ? ? Hs Hb']; subst.
    constructor.
    + exact (@zip_with_finite f r Hf s t Hr Hs Et).
    + apply (IH b); assumption.
Qed.

Lemma filter_warnings (ws rest : list message) :
  Forall (fun m => is_warning m = true) ws ->
  filter is_warning (ws ++ rest) = ws ++ filter is_warning rest.
Proof.
  induction 1 as [| w ws Hw _ IH]; simpl; [reflexivity |].
  rewrite Hw, IH. reflexivity.
Qed.

(** ** camera_analyzer.py: the accumulation loop *)

Section ExtractionProperties.

Variable listdir : string -> outcome (list string).
Variable imread_grayscale : string -> option image8.
Variable resize_area : image8 -> size -> outcome image8.
Variable GaussianBlur : farray -> size -> outcome farray.

(** The processing resolution, (width, height) = ([W], [H]). *)
Variables W H : nat.

Local Abbreviation sample := (usable_sample imread_grayscale resize_area (W, H)).
Local Abbreviation samples := (usable_samples imread_grayscale resize_area (W, H)).
Local Abbreviation failing := (failing_paths imread_grayscale resize_area (W, H)).
Local Abbreviation step := (accumulate_one imread_grayscale resize_area (W, H)).
Local Abbreviation loop := (accumulate_images imread_grayscale resize_area (W, H)).
Local Abbreviation extract :=
  (extract_fingerprint listdir imread_grayscale resize_area GaussianBlur).

Lemma usable_sample_wf (path : string) (s : farray) :
  sample path = Some s -> rect H W s /\ all_finite s.
Proof.
  unfold usable_sample. destruct (imread_grayscale path) as [img |]; [| discriminate].
  destruct (resize_area img (W, H)) as [r | e]; [| discriminate].
  simpl. destruct (has_shape H W r) eqn:E; [| discriminate].
  intro Hs. inversion Hs; subst. apply has_shape_rect in E. split.
  - apply rect_amap. exact E.
  - apply all_samples_amap. intro x. exact I.
Qed.

Lemma usable_samples_wf (paths : list string) :
  Forall (fun s => rect H W s /\ all_finite s) (samples paths).
Proof.
  induction paths as [| p paths IH]; simpl; [constructor |].
  destruct (sample p) as [s |] eqn:E; [| exact IH].
  constructor; [| exact IH]. apply usable_sample_wf with (path := p). exact E.
Qed.

(** A usable image is added to the accumulator and counted. *)
Lemma accumulate_one_usable (path : string) (s : farray)
  (g : nat -> nat -> fval) (count : nat) :
  sample path = Some s ->
  step path (tabulate H W g) count
  = ([], (tabulate H W (fun i j => fadd (g i j) (pixel s i j)), S count)).
Proof.
  intro Hs. pose proof (usable_sample_wf _ Hs) as [Hrect _].
  unfold usable_sample in Hs. unfold accumulate_one.
  destruct (imread_grayscale path) as [img |]; [| discriminate Hs].
  destruct (resize_area img (W, H)) as [r | e]; [| discriminate Hs].
  simpl in Hs. destruct (has_shape H W r); [| discriminate Hs].
  inversion Hs; subst s. simpl bind.
  unfold np_add, elementwise.
  rewrite (rect_as_tabulate Hrect) at 1.
  rewrite zip_rows_tabulate. reflexivity.
Qed.

(** Any other candidate leaves the state as it was and prints one warning
    that names the file. *)
Lemma accumulate_one_unusable (path : string) (g : nat -> nat -> fval) (count : nat) :
  sample path = None ->
  exists w,
    step path (tabulate H W g) count = ([w], (tabulate H W g, count))
    /\ is_warning w = true /\ warned_name w = Some (basename path).
Proof.
  intro Hs. unfold usable_sample in Hs. unfold accumulate_one.
  destruct (imread_grayscale path) as [img |].
  - destruct (resize_area img (W, H)) as [r | e]; simpl bind.
    + simpl in Hs. destruct (has_shape H W r) eqn:E; [discriminate Hs |].
      unfold np_add, elementwise.
      destruct (zip_rows fadd (tabulate H W g) (astype_float r)) as [c |] eqn:Ez.
      * exfalso.
        destruct (@zip_rows_rect _ _ _ fadd H W _ _ _ (rect_tabulate_shape H W g) Ez) as [Hr _].
        apply rect_amap_inv in Hr. apply has_shape_rect in Hr. congruence.
      * eexists. split; [reflexivity |]. split; reflexivity.
    + eexists. split; [reflexivity |]. split; reflexivity.
  - eexists. split; [reflexivity |]. split; reflexivity.
Qed.

(** The loop: the accumulator ends as the sum of the usable samples, the
    counter as their number, and each failing candidate is warned about,
    in order. *)
Lemma accumulate_images_summary (paths : list string) :
  forall (gs : list farray),
  exists warnings,
    loop paths (tabulate H W (pixel_sum gs)) (length gs)
    = (warnings,
       (tabulate H W (pixel_sum (gs ++ samples paths)),
        length (gs ++ samples paths)))
    /\ Forall (fun m => is_warning m = true) warnings
    /\ map warned_name warnings = map (fun p => Some (basename p)) (failing paths).
Proof.
  induction paths as [| p paths IH]; intro gs.
  - exists []. simpl. rewrite app_nil_r. repeat split; constructor.
  - simpl accumulate_images. unfold failing_paths. simpl usable_samples. simpl filter.
    destruct (sample p) as [s |] eqn:Es.
    + rewrite (accumulate_one_usable _ _ _ Es).
      destruct (IH (gs ++ [s])) as [ws [Hrun [Hw Hn]]].
      assert (Hacc : tabulate H W (fun i j => fadd (pixel_sum gs i j) (pixel s i j))
                     = tabulate H W (pixel_sum (gs ++ [s]))).
      { apply tabulate_ext. intros i j _ _. symmetry. apply pixel_sum_snoc. }
      rewrite Hacc.
      replace (S (length gs)) with (length (gs ++ [s]))
        by (rewrite length_app; simpl; lia).
      rewrite Hrun. rewrite <- app_assoc. simpl.
      exists ws. repeat split; assumption.
    + destruct (accumulate_one_unusable p (pixel_sum gs) (length gs) Es)
        as [w [Hstep [Hw Hn]]].
      rewrite Hstep.
      destruct (IH gs) as [ws [Hrun [Hws Hns]]]. rewrite Hrun.
      exists (w :: ws). simpl. repeat split.
      * constructor; assumption.
      * rewrite Hn. f_equal. exact Hns.
Qed.

(** extract_fingerprint after the loop has been summarised. *)
Lemma extract_fingerprint_summary (dir : string) (names : list string) (k : size) :
  listdir dir = Returned names ->
  candidate_paths dir names <> [] ->
  let paths := candidate_paths dir names in
  let good := samples paths in
  exists warnings,
    Forall (fun m => is_warning m = true) warnings
    /\ map warned_name warnings = map (fun p => Some (basename p)) (failing paths)
    /\ extract dir (W, H) k
       = print (InfoFound (length paths))
           (print_all warnings
              (if length good =? 0
               then print ErrorNothingProcessed (finish (Returned None))
               else
                 print (InfoProcessed (length good) (length paths))
                   (print InfoSeparating
                      match separate GaussianBlur (mean_image H W good) k with
                      | Raised e => finish (Raised e)
                      | Returned fingerprint =>
                          print InfoSuccess (finish (Returned (Some fingerprint)))
                      end))).
Proof.
  intros Hdir Hne paths good.
  destruct (accumulate_images_summary paths []) as [ws [Hrun [Hw Hn]]].
  exists ws. split; [exact Hw |]. split; [exact Hn |].
  unfold extract_fingerprint. rewrite Hdir. fold paths.
  rewrite (match_nonempty _ _ Hne).
  simpl snd. simpl fst.
  unfold zeros. rewrite full_as_tabulate.
  change (tabulate H W (fun _ _ : nat => fzero)) with (tabulate H W (pixel_sum [])).
  change 0 with (length (@nil farray)) at 1.
  rewrite Hrun. simpl app.
  unfold np_div_scalar. rewrite amap_tabulate. reflexivity.
Qed.

Lemma mean_image_finite (good : list farray) :
  good <> [] ->
  Forall (fun s => rect H W s /\ all_finite s) good ->
  all_finite (mean_image H W good).
Proof.
  intros Hne Hwf. unfold mean_image, all_finite.
  apply all_samples_tabulate. intros i j Hi Hj.
  assert (Hsum : finite (pixel_sum good i j)).
  { unfold pixel_sum. apply fold_fadd_finite; [exact I |].
    apply Forall_map. eapply Forall_impl; [| exact Hwf].
    intros s [Hr Hf]. simpl. apply (pixel_of_all_samples Hf Hr Hi Hj). }
  destruct (pixel_sum good i j) as [q | | |]; try contradiction.
  unfold of_Z. rewrite fdiv_finite; [exact I |].
  intro Hz. apply Qc_of_Z_inj in Hz.
  destruct good; [contradiction | simpl in Hz; lia].
Qed.

(** C2.  When no image is processed successfully (the directory is missing,
    it holds no supported file, or no candidate yields a usable sample),
    extract_fingerprint returns the failure value (None, None) and no
    fingerprint. *)
Theorem no_usable_image_no_fingerprint (dir : string) (k : size) :
  (listdir dir = Raised FileNotFoundError
   \/ exists names,
        listdir dir = Returned names /\ samples (candidate_paths dir names) = []) ->
  result (extract dir (W, H) k) = Returned None.
Proof.
  intros [Hmissing | [names [Hdir Hnone]]].
  - unfold extract_fingerprint. rewrite Hmissing. reflexivity.
  - destruct (candidate_paths dir names) as [| p rest] eqn:Ep.
    + unfold extract_fingerprint. rewrite Hdir, Ep. reflexivity.
    + assert (Hne : candidate_paths dir names <> []) by (rewrite Ep; discriminate).
      destruct (extract_fingerprint_summary k Hdir Hne) as [ws [_ [_ Hrun]]].
      rewrite Hrun. rewrite Ep, Hnone. reflexivity.
Qed.

(** C8.  When at least one candidate yields a usable sample, and the blur
    accepts the kernel, extract_fingerprint returns a fingerprint: the blur
    of the mean of exactly the usable samples (their sum divided by their
    number, not by the number of candidates) and the residual of that mean;
    every other candidate is skipped with one warning that names it. *)
Theorem partial_failure_is_tolerated (dir : string) (names : list string) (k : size) :
  listdir dir = Returned names ->
  samples (candidate_paths dir names) <> [] ->
  (forall a, rect H W a -> exists v, GaussianBlur a k = Returned v /\ rect H W v) ->
  exists v n,
    result (extract dir (W, H) k) = Returned (Some (v, n))
    /\ GaussianBlur (mean_image H W (samples (candidate_paths dir names))) k
       = Returned v
    /\ np_sub (mean_image H W (samples (candidate_paths dir names))) v = Returned n
    /\ map warned_name (filter is_warning (printed (extract dir (W, H) k)))
       = map (fun p => Some (basename p)) (failing (candidate_paths dir names)).
Proof.
  intros Hdir Hgood Hblur.
  assert (Hne : candidate_paths dir names <> []).
  { intro E. apply Hgood. rewrite E. reflexivity. }
  destruct (extract_fingerprint_summary k Hdir Hne) as [ws [Hw [Hn Hrun]]].
  rewrite Hrun. clear Hrun.
  set (good := samples (candidate_paths dir names)) in *.
  destruct (Hblur (mean_image H W good) (rect_tabulate_shape _ _ _)) as [v [Hv Hrect]].
  assert (Hsub : exists n, np_sub (mean_image H W good) v = Returned n).
  { unfold np_sub, elementwise, mean_image.
    rewrite (rect_as_tabulate Hrect).
    rewrite zip_rows_tabulate. eexists. reflexivity. }
  destruct Hsub as [n Hsub].
  exists v, n. split; [| split; [exact Hv | split; [exact Hsub |]]].
  - destruct (length good =? 0) eqn:E.
    + apply Nat.eqb_eq in E. destruct good; [contradiction | discriminate E].
    + unfold separate. rewrite Hv. simpl bind. rewrite Hsub. reflexivity.
  - destruct (length good =? 0) eqn:E.
    + apply Nat.eqb_eq in E. destruct good; [contradiction | discriminate E].
    + unfold separate. rewrite Hv. simpl bind. rewrite Hsub.
      unfold printed, print, print_all, finish. simpl fst. simpl filter.
      rewrite filter_warnings by exact Hw. simpl. rewrite app_nil_r. exact Hn.
Qed.

(** A returned fingerprint is the blur of the mean of the usable samples
    and the residual of that mean. *)
Lemma extract_fingerprint_returned (dir : string) (k : size) (v n : farray) :
  result (extract dir (W, H) k) = Returned (Some (v, n)) ->
  exists names,
    listdir dir = Returned names
    /\ samples (candidate_paths dir names) <> []
    /\ GaussianBlur (mean_image H W (samples (candidate_paths dir names))) k
       = Returned v
    /\ np_sub (mean_image H W (samples (candidate_paths dir names))) v = Returned n.
Proof.
  intro Hres.
  destruct (listdir dir) as [names | e] eqn:Hdir.
  - exists names. split; [reflexivity |].
    destruct (candidate_paths dir names) as [| p rest] eqn:Ep.
    { unfold extract_fingerprint in Hres. rewrite Hdir, Ep in Hres. discriminate Hres. }
    assert (Hne : candidate_paths dir names <> []) by (rewrite Ep; discriminate).
    destruct (extract_fingerprint_summary k Hdir Hne) as [ws [_ [_ Hrun]]].
    rewrite Hrun in Hres. clear Hrun. rewrite <- Ep in *.
    set (good := samples (candidate_paths dir names)) in *.
    destruct (length good =? 0) eqn:E; [discriminate Hres |].
    split.
    { intro E'. rewrite E' in E. discriminate E. }
    unfold separate in Hres.
    destruct (GaussianBlur (mean_image H W good) k) as [b | e] eqn:Hb;
      [| discriminate Hres].
    simpl bind in Hres.
    destruct (np_sub (mean_image H W good) b) as [r | e] eqn:Hs;
      [| discriminate Hres].
    simpl in Hres. inversion Hres; subst b r. split; [reflexivity | exact Hs].
  - unfold extract_fingerprint in Hres. rewrite Hdir in Hres.
    destruct e; discriminate Hres.
Qed.

(** Both fields of a returned fingerprint are finite, for a blur that keeps
    finite arrays finite. *)
Lemma fingerprint_is_finite (dir : string) (k : size) (v n : farray) :
  (forall a b, rect H W a -> all_finite a -> GaussianBlur a k = Returned b ->
               all_finite b) ->
  result (extract dir (W, H) k) = Returned (Some (v, n)) ->
  all_finite v /\ all_finite n.
Proof.
  intros Hfinite Hres.
  destruct (extract_fingerprint_returned _ _ Hres) as [names [_ [Hgood [Hb Hs]]]].
  pose proof (mean_image_finite Hgood (usable_samples_wf _)) as Hmean.
  pose proof (Hfinite _ _ (rect_tabulate_shape _ _ _) Hmean Hb) as Hv.
  split; [exact Hv |].
  unfold np_sub, elementwise in Hs.
  destruct (zip_rows fsub (mean_image H W (samples (candidate_paths dir names))) v)
    as [r |] eqn:Hz; [| discriminate Hs].
  inversion Hs; subst r.
  refine (@zip_rows_finite fsub _ _ v n Hmean Hv Hz).
  intros [a | | |] [b | | |] Ha Hb'; simpl in *; try contradiction; exact I.
Qed.

(** C1.  Whenever extract_fingerprint returns a fingerprint (v, n), the sum
    v + n is the average image, sample for sample, for every blur that maps
    finite arrays to finite arrays: n is computed as average - v. *)
Theorem decomposition_is_lossless (dir : string) (k : size) (v n : farray) :
  (forall a b, rect H W a -> all_finite a -> GaussianBlur a k = Returned b ->
               all_finite b) ->
  result (extract dir (W, H) k) = Returned (Some (v, n)) ->
  exists names,
    listdir dir = Returned names
    /\ GaussianBlur (mean_image H W (samples (candidate_paths dir names))) k
       = Returned v
    /\ np_add v n = Returned (mean_image H W (samples (candidate_paths dir names))).
Proof.
  intros Hfinite Hres.
  destruct (extract_fingerprint_returned _ _ Hres) as [names [Hdir [Hgood [Hb Hs]]]].
  exists names. split; [exact Hdir |]. split; [exact Hb |].
  pose proof (mean_image_finite Hgood (usable_samples_wf _)) as Hmean.
  unfold np_sub, elementwise in Hs.
  destruct (zip_rows fsub (mean_image H W (samples (candidate_paths dir names))) v)
    as [r |] eqn:Hz; [| discriminate Hs].
  inversion Hs; subst r.
  unfold np_add, elementwise.
  rewrite (zip_rows_add_sub Hmean
             (Hfinite _ _ (rect_tabulate_shape _ _ _) Hmean Hb) Hz).
  reflexivity.
Qed.

End ExtractionProperties.

(** ** The instances of [Ref] meet the contracts *)

Module RefContract.
Import Ref.

Lemma weighted_finite (taps : list tap) (row : list fval) :
  Forall (fun t : tap => fst t < length row) taps -> Forall finite row ->
  finite (weighted taps row).
Proof.
  intros Hin Hrow. induction Hin as [| t taps Ht _ IH]; [exact I |].
  assert (Hx : finite (nth (fst t) row NaN)).
  { rewrite Forall_forall in Hrow. apply Hrow. apply nth_In. exact Ht. }
  change (finite (fadd (fmul (Fin (snd t)) (nth (fst t) row NaN)) (weighted taps row))).
  destruct (nth (fst t) row NaN) as [x | | |]; try contradiction.
  destruct (weighted taps row) as [y | | |]; try contradiction. exact I.
Qed.

Lemma weighted_const (taps : list tap) (n : nat) (c : Qc) :
  Forall (fun t : tap => fst t < n) taps ->
  weighted taps (repeat (Fin c) n) = Fin (weight_sum taps * c)%Qc.
Proof.
  induction 1 as [| t taps Ht _ IH].
  - simpl. unfold fzero. rewrite Qc_of_Z_zero, Qcmult_0_l. reflexivity.
  - change (fadd (fmul (Fin (snd t)) (nth (fst t) (repeat (Fin c) n) NaN))
              (weighted taps (repeat (Fin c) n))
            = Fin (weight_sum (t :: taps) * c)%Qc).
    rewrite nth_repeat_lt by exact Ht. rewrite IH.
    simpl. f_equal. ring.
Qed.

Lemma resample_rect (plan_y plan_x : list (list tap)) (a : farray) :
  rect (length plan_y) (length plan_x) (resample plan_y plan_x a).
Proof.
  unfold rect, resample. split.
  - apply length_map.
  - apply Forall_map. apply Forall_forall. intros ty _. apply length_map.
Qed.

Lemma resample_finite (plan_y plan_x : list (list tap)) (h w : nat) (a : farray) :
  rect h w a -> all_finite a -> in_range h plan_y -> in_range w plan_x ->
  all_finite (resample plan_y plan_x a).
Proof.
  intros [Hh Hw] Ha Hy Hx. unfold all_finite, all_samples, resample.
  apply Forall_map. rewrite Forall_forall. intros ty Hty.
  apply Forall_map. rewrite Forall_forall. intros tx Htx.
  unfold in_range in Hy, Hx. rewrite Forall_forall in Hy, Hx.
  apply weighted_finite.
  - rewrite length_map, Hh. apply Hy. exact Hty.
  - apply Forall_map. rewrite Forall_forall. intros row Hrow.
    apply weighted_finite.
    + rewrite Forall_forall in Hw. rewrite (Hw _ Hrow). apply Hx. exact Htx.
    + unfold all_finite, all_samples in Ha. rewrite Forall_forall in Ha.
      apply Ha. exact Hrow.
Qed.

Lemma resample_const (plan_y plan_x : list (list tap)) (h w : nat) (c : Qc) :
  in_range h plan_y -> in_range w plan_x ->
  unit_weights plan_y -> unit_weights plan_x ->
  resample plan_y plan_x (full h w (Fin c))
  = full (length plan_y) (length plan_x) (Fin c).
Proof.
  intros Hy Hx Uy Ux. unfold resample, full.
  rewrite <- (map_const (repeat (Fin c) (length plan_x)) plan_y).
  unfold in_range, unit_weights in *. rewrite Forall_forall in Hy, Hx, Uy, Ux.
  apply map_ext_in. intros ty Hty.
  rewrite <- (map_const (Fin c) plan_x).
  apply map_ext_in. intros tx Htx.
  rewrite map_repeat.
  rewrite (weighted_const c (Hx _ Htx)), (Ux _ Htx), Qcmult_1_l.
  rewrite (weighted_const c (Hy _ Hty)), (Uy _ Hty), Qcmult_1_l.
  reflexivity.
Qed.

Lemma is_empty_false (T : Type) (h w : nat) (a : ndarray T) :
  rect h w a -> 0 < h -> 0 < w ->
  is_empty a = false /\ height a = h /\ width a = w.
Proof.
  intros [Hh Hw] Hhp Hwp.
  destruct a as [| row a]; simpl in Hh; [lia |].
  inversion Hw as [| ? ? Hrow _]; subst.
  unfold is_empty, height, width. simpl.
  destruct (length row) eqn:E; [lia |]. repeat split; reflexivity.
Qed.


Lemma plan_length (f : nat -> list tap) (n : nat) : length (map f (seq 0 n)) = n.
Proof. rewrite length_map. apply length_seq. Qed.

(** *** INTER_CUBIC *)

Lemma clamp_index_lt (n : nat) (i : Z) : 0 < n -> clamp_index n i < n.
Proof. unfold clamp_index. lia. Qed.

Lemma cubic_plan_in_range (sn dn : nat) : 0 < sn -> in_range sn (cubic_plan sn dn).
Proof.
  intro Hs. unfold in_range, cubic_plan. apply Forall_map.
  apply Forall_forall. intros d _. unfold cubic_taps. simpl.
  repeat constructor; simpl; apply clamp_index_lt; exact Hs.
Qed.

Lemma cubic_plan_unit (sn dn : nat) : unit_weights (cubic_plan sn dn).
Proof.
  unfold unit_weights, cubic_plan. apply Forall_map.
  apply Forall_forall. intros d _. unfold cubic_taps, cubic_weights, weight_sum.
  simpl. ring.
Qed.

Lemma resize_cubic_returns (a : farray) (h0 w0 h w : nat) :
  rect h0 w0 a -> 0 < h0 -> 0 < w0 -> 0 < h -> 0 < w ->
  exists r, resize_cubic a (w, h) = Returned r /\ rect h w r.
Proof.
  intros Ha Hh0 Hw0 Hh Hw.
  destruct (is_empty_false Ha Hh0 Hw0) as [He [Eh Ew]].
  unfold resize_cubic. rewrite He.
  destruct w; [lia |]. destruct h; [lia |]. simpl orb. cbv iota.
  destruct ((height a =? S h) && (width a =? S w)) eqn:Esame.
  - exists a. split; [reflexivity |].
    apply andb_true_iff in Esame. destruct Esame as [E1 E2].
    apply Nat.eqb_eq in E1, E2. rewrite <- E1, <- E2, Eh, Ew. exact Ha.
  - eexists. split; [reflexivity |].
    pose proof (resample_rect (cubic_plan (height a) (S h))
                  (cubic_plan (width a) (S w)) a) as Hr.
    unfold cubic_plan in Hr at 1 2. rewrite !plan_length in Hr. exact Hr.
Qed.


Lemma resize_cubic_finite (a r : farray) (h0 w0 : nat) (dsize : size) :
  rect h0 w0 a -> all_finite a -> resize_cubic a dsize = Returned r -> all_finite r.
Proof.
  intros Ha Hf Hr. unfold resize_cubic in Hr. destruct dsize as [w h].
  destruct (is_empty a) eqn:He; [discriminate Hr |].
  destruct ((false || (w =? 0)) || (h =? 0)); [discriminate Hr |].
  destruct ((height a =? h) && (width a =? w));
    [inversion Hr; subst r; exact Hf |].
  inversion Hr; subst r. clear Hr.
  unfold is_empty in He. apply orb_false_iff in He. destruct He as [E1 E2].
  apply Nat.eqb_neq in E1, E2.
  assert (Hh : height a = h0) by (destruct Ha; assumption).
  assert (Hw : width a = w0).
  { destruct Ha as [_ Hrow]. destruct a; [simpl in E1; lia |].
    inversion Hrow; subst. reflexivity. }
  apply resample_finite with (h := h0) (w := w0); try assumption.
  - rewrite Hh. apply cubic_plan_in_range. lia.
  - rewrite Hw. apply cubic_plan_in_range. lia.
Qed.

(** Resized to the size it has, an array comes back as it is. *)
Lemma resize_cubic_same_size (a : farray) (h w : nat) :
  rect h w a -> 0 < h -> 0 < w -> resize_cubic a (w, h) = Returned a.
Proof.
  intros Ha Hh Hw.
  destruct (is_empty_false Ha Hh Hw) as [He [Eh Ew]].
  unfold resize_cubic. rewrite He, Eh, Ew, !Nat.eqb_refl.
  destruct w; [lia |]. destruct h; [lia |]. reflexivity.
Qed.

(** *** INTER_AREA *)

Lemma weight_sum_equal (w : Qc) (l : list nat) :
  weight_sum (map (fun i => (i, w)) l) = (Qc_of_Z (Z.of_nat (length l)) * w)%Qc.
Proof.
  induction l as [| i l IH].
  - simpl. rewrite Qc_of_Z_zero. ring.
  - change (length (i :: l)) with (S (length l)). rewrite Qc_of_Z_succ.
    simpl. rewrite IH. ring.
Qed.

Lemma area_footprint (sn dn d : nat) :
  0 < sn -> d < dn ->
  (d * sn) / dn < ((d + 1) * sn + dn - 1) / dn
  /\ ((d + 1) * sn + dn - 1) / dn <= sn.
Proof.
  intros Hs Hd. split.
  - apply Nat.div_le_lower_bound; [lia |].
    pose proof (Nat.Div0.mul_div_le (d * sn) dn). nia.
  - apply Nat.lt_succ_r. apply Nat.Div0.div_lt_upper_bound. nia.
Qed.

Lemma area_plan_in_range (sn dn : nat) : 0 < sn -> in_range sn (area_plan sn dn).
Proof.
  intro Hs. unfold in_range, area_plan. apply Forall_map.
  apply Forall_forall. intros d Hd. apply in_seq in Hd.
  destruct (@area_footprint sn dn d Hs) as [H1 H2]; [lia |].
  unfold area_taps. apply Forall_map. apply Forall_forall.
  intros i Hi. apply in_seq in Hi. simpl. lia.
Qed.

Lemma area_plan_unit (sn dn : nat) : 0 < sn -> unit_weights (area_plan sn dn).
Proof.
  intro Hs. unfold unit_weights, area_plan. apply Forall_map.
  apply Forall_forall. intros d Hd. apply in_seq in Hd.
  destruct (@area_footprint sn dn d Hs) as [H1 H2]; [lia |].
  unfold area_taps. rewrite weight_sum_equal, length_seq.
  apply Qcmult_inv_r. intro Hz. apply Qc_of_Z_inj in Hz. lia.
Qed.

Lemma round_half_even_integer (z : Z) : round_half_even (Qc_of_Z z) = z.
Proof.
  unfold round_half_even. rewrite Qfloor_Qc_of_Z.
  replace (Qc_of_Z z - Qc_of_Z z)%Qc with 0%Qc by ring. reflexivity.
Qed.

Lemma resize_area_const (h0 w0 h w : nat) (c : Z) :
  0 < h0 -> 0 < w0 -> 0 < h -> 0 < w -> in_uint8_range c ->
  resize_area (full h0 w0 c) (w, h) = Returned (full h w c).
Proof.
  intros Hh0 Hw0 Hh Hw Hc.
  assert (Ha : rect h0 w0 (full h0 w0 c)).
  { rewrite full_as_tabulate. apply rect_tabulate_shape. }
  destruct (is_empty_false Ha Hh0 Hw0) as [He [Eh Ew]].
  unfold resize_area. rewrite He.
  destruct w; [lia |]. destruct h; [lia |]. simpl orb. cbv iota.
  rewrite Eh, Ew. f_equal.
  unfold astype_float. rewrite amap_full. unfold of_Z.
  rewrite resample_const.
  - unfold area_plan. rewrite !plan_length. rewrite amap_full. f_equal.
    unfold saturate_uint8. rewrite round_half_even_integer.
    unfold in_uint8_range in Hc. lia.
  - apply area_plan_in_range. exact Hh0.
  - apply area_plan_in_range. exact Hw0.
  - apply area_plan_unit. exact Hh0.
  - apply area_plan_unit. exact Hw0.
Qed.

(** *** GaussianBlur *)

Lemma reflect101_lt (n : nat) (i : Z) : 0 < n -> reflect101 n i < n.
Proof.
  intro Hn. unfold reflect101. destruct (n <=? 1) eqn:E; [exact Hn |].
  apply Nat.leb_gt in E.
  pose proof (Z.mod_pos_bound i (2 * (Z.of_nat n - 1))) as Hm.
  destruct (i mod (2 * (Z.of_nat n - 1)) <? Z.of_nat n)%Z eqn:El.
  - apply Z.ltb_lt in El. lia.
  - apply Z.ltb_ge in El. lia.
Qed.

Lemma blur_plan_in_range (kernel : list Qc) (n : nat) :
  0 < n -> in_range n (blur_plan kernel n).
Proof.
  intro Hn. unfold in_range, blur_plan. apply Forall_map.
  apply Forall_forall. intros d _. unfold blur_taps. apply Forall_map.
  apply Forall_forall. intros jw _. simpl. apply reflect101_lt. exact Hn.
Qed.

Lemma weight_sum_relabel (g : nat * Qc -> nat) (kernel : list Qc) :
  forall (l : list nat), length l = length kernel ->
    weight_sum (map (fun jw => (g jw, snd jw)) (combine l kernel)) = kernel_sum kernel.
Proof.
  induction kernel as [| x kernel IH]; intros [| j l] Hl; simpl in Hl;
    try discriminate Hl; [reflexivity |].
  simpl. rewrite IH by lia. reflexivity.
Qed.

Lemma blur_plan_unit (kernel : list Qc) (n : nat) :
  kernel_sum kernel = 1%Qc -> unit_weights (blur_plan kernel n).
Proof.
  intro Hk. unfold unit_weights, blur_plan. apply Forall_map.
  apply Forall_forall. intros d _. unfold blur_taps.
  rewrite (weight_sum_relabel
             (fun jw => reflect101 n
                (Z.of_nat d + Z.of_nat (fst jw)
                 - Z.of_nat ((length kernel - 1) / 2)))).
  - exact Hk.
  - apply length_seq.
Qed.

Lemma gaussian_kernel_odd (k : nat) :
  Nat.even k = false -> exists kernel, gaussian_kernel k = Some kernel.
Proof.
  intro Hk. unfold gaussian_kernel. rewrite Hk.
  destruct (k =? 7); eexists; reflexivity.
Qed.

Lemma GaussianBlur_returns (a : farray) (h w kw kh : nat) :
  Nat.even kw = false -> Nat.even kh = false ->
  rect h w a -> 0 < h -> 0 < w ->
  exists v, GaussianBlur a (kw, kh) = Returned v /\ rect h w v.
Proof.
  intros Hkw Hkh Ha Hh Hw.
  destruct (gaussian_kernel_odd kw Hkw) as [kx Ex].
  destruct (gaussian_kernel_odd kh Hkh) as [ky Ey].
  destruct (is_empty_false Ha Hh Hw) as [He [Eh Ew]].
  unfold GaussianBlur. rewrite Ex, Ey, He.
  eexists. split; [reflexivity |].
  pose proof (resample_rect (blur_plan ky (height a)) (blur_plan kx (width a)) a) as Hr.
  unfold blur_plan in Hr at 1 2. rewrite !plan_length in Hr.
  rewrite Eh, Ew in Hr. rewrite Eh, Ew. exact Hr.
Qed.

Lemma GaussianBlur_finite (a v : farray) (h w : nat) (ksize : size) :
  rect h w a -> all_finite a -> GaussianBlur a ksize = Returned v -> all_finite v.
Proof.
  intros Ha Hf Hv. unfold GaussianBlur in Hv. destruct ksize as [kw kh].
  destruct (gaussian_kernel kw) as [kx |]; [| discriminate Hv].
  destruct (gaussian_kernel kh) as [ky |]; [| discriminate Hv].
  destruct (is_empty a) eqn:He; [discriminate Hv |].
  inversion Hv; subst v. clear Hv.
  unfold is_empty in He. apply orb_false_iff in He. destruct He as [E1 E2].
  apply Nat.eqb_neq in E1, E2.
  assert (Hh : height a = h) by (destruct Ha; assumption).
  assert (Hw : width a = w).
  { destruct Ha as [_ Hrow]. destruct a; [simpl in E1; lia |].
    inversion Hrow; subst. reflexivity. }
  apply resample_finite with (h := h) (w := w); try assumption.
  - rewrite Hh. apply blur_plan_in_range. lia.
  - rewrite Hw. apply blur_plan_in_range. lia.
Qed.

Lemma GaussianBlur_const (h w kw kh : nat) (kx ky : list Qc) (c : Qc) :
  gaussian_kernel kw = Some kx -> gaussian_kernel kh = Some ky ->
  kernel_sum kx = 1%Qc -> kernel_sum ky = 1%Qc ->
  0 < h -> 0 < w ->
  GaussianBlur (full h w (Fin c)) (kw, kh) = Returned (full h w (Fin c)).
Proof.
  intros Ex Ey Sx Sy Hh Hw.
  assert (Ha : rect h w (full h w (Fin c))).
  { rewrite full_as_tabulate. apply rect_tabulate_shape. }
  destruct (is_empty_false Ha Hh Hw) as [He [Eh Ew]].
  unfold GaussianBlur. rewrite Ex, Ey, He, Eh, Ew. f_equal.
  rewrite resample_const.
  - unfold blur_plan. rewrite !plan_length. reflexivity.
  - apply blur_plan_in_range. exact Hh.
  - apply blur_plan_in_range. exact Hw.
  - apply blur_plan_unit. exact Sy.
  - apply blur_plan_unit. exact Sx.
Qed.

Lemma GaussianBlur_3x3_const (h w : nat) (c : Qc) :
  0 < h -> 0 < w ->
  GaussianBlur (full h w (Fin c)) (3, 3) = Returned (full h w (Fin c)).
Proof.
  intros Hh Hw.
  apply GaussianBlur_const
    with (kx := [qc 1 4; qc 1 2; qc 1 4]) (ky := [qc 1 4; qc 1 2; qc 1 4]);
    try assumption.
  - unfold gaussian_kernel. simpl. do 4 f_equal; apply Qc_is_canon; reflexivity.
  - unfold gaussian_kernel. simpl. do 4 f_equal; apply Qc_is_canon; reflexivity.
  - apply Qc_is_canon. reflexivity.
  - apply Qc_is_canon. reflexivity.
Qed.

(** *** cvtColor *)


End RefContract.

(** ** style_applicator.py *)

Lemma fle_refl_finite (m : Qc) : fle (Fin m) (Fin m).
Proof. simpl. apply Qcle_refl. Qed.

Lemma fle_trans (x y z : fval) : fle x y -> fle y z -> fle x z.
Proof.
  destruct x as [a | | |], y as [b | | |], z as [c | | |]; simpl;
    try contradiction; try (intros; exact I).
  apply Qcle_trans.
Qed.

Lemma fle_antisym (x y : fval) : fle x y -> fle y x -> x = y.
Proof.
  destruct x as [a | | |], y as [b | | |]; simpl; try contradiction;
    try reflexivity.
  intros H1 H2. f_equal. apply Qcle_antisym; assumption.
Qed.

(** np.maximum returns NaN when an operand is NaN, and otherwise the larger
    operand. *)
Lemma fmax_cases (x y : fval) :
  (fmax x y = NaN /\ (x = NaN \/ y = NaN))
  \/ (fmax x y = y /\ fle x y)
  \/ (fmax x y = x /\ fle y x).
Proof.
  destruct x as [a | | |], y as [b | | |]; try (simpl; auto; fail).
  - change (fmax (Fin a) (Fin b))
      with (if fleb (Fin a) (Fin b) then Fin b else Fin a).
    destruct (fleb (Fin a) (Fin b)) eqn:E.
    + right. left. split; [reflexivity |]. apply fleb_fle. exact E.
    + right. right. split; [reflexivity |].
      destruct (fle_total a b) as [H | H]; [| exact H].
      apply fleb_fle in H. congruence.
Qed.

Lemma fold_fmax_sound (xs : list fval) :
  forall (x : fval) (m : Qc),
    fold_left fmax xs x = Fin m ->
    Forall (fun y => fle y (Fin m)) (x :: xs) /\ In (Fin m) (x :: xs).
Proof.
  induction xs as [| y xs IH]; intros x m Hm; simpl in Hm.
  - subst x. split; [| left; reflexivity].
    constructor; [apply fle_refl_finite | constructor].
  - destruct (IH _ _ Hm) as [Hall Hin].
    inversion Hall as [| ? ? Hxy Hxs]; subst.
    destruct (fmax_cases x y) as [[E _] | [[E Hle] | [E Hle]]].
    + rewrite E in Hxy. contradiction.
    + rewrite E in Hxy, Hin. split.
      * constructor; [eapply fle_trans; eassumption |]. constructor; assumption.
      * right. exact Hin.
    + rewrite E in Hxy, Hin. split.
      * constructor; [exact Hxy |]. constructor; [eapply fle_trans; eassumption | assumption].
      * destruct Hin as [Hin | Hin]; [left; exact Hin | right; right; exact Hin].
Qed.

Lemma fold_fmax_complete (xs : list fval) :
  forall (x : fval) (m : Qc),
    Forall (fun y => fle y (Fin m)) (x :: xs) -> In (Fin m) (x :: xs) ->
    fold_left fmax xs x = Fin m.
Proof.
  induction xs as [| y xs IH]; intros x m Hall Hin; simpl.
  - destruct Hin as [Hin | []]. exact Hin.
  - inversion Hall as [| ? ? Hx Hrest]; subst.
    inversion Hrest as [| ? ? Hy Hxs]; subst.
    apply IH.
    + constructor; [| exact Hxs].
      destruct (fmax_cases x y) as [[_ [E | E]] | [[E _] | [E _]]].
      * subst x. contradiction.
      * subst y. contradiction.
      * rewrite E. exact Hy.
      * rewrite E. exact Hx.
    + destruct (fmax_cases x y) as [[_ [E | E]] | [[E Hle] | [E Hle]]].
      * subst x. contradiction.
      * subst y. contradiction.
      * rewrite E. destruct Hin as [Hin | [Hin | Hin]].
        -- left. subst x. apply fle_antisym; assumption.
        -- left. exact Hin.
        -- right. exact Hin.
      * rewrite E. destruct Hin as [Hin | [Hin | Hin]].
        -- left. exact Hin.
        -- left. subst y. apply fle_antisym; assumption.
        -- right. exact Hin.
Qed.

(** [a.max()] is a sample of [a] that no sample exceeds. *)
Lemma np_max_sound (a : farray) (m : Qc) :
  np_max a = Returned (Fin m) ->
  Forall (fun y => fle y (Fin m)) (concat a) /\ In (Fin m) (concat a).
Proof.
  unfold np_max. destruct (concat a) as [| x xs]; [discriminate |].
  intro H. assert (Hm : fold_left fmax xs x = Fin m) by congruence.
  apply fold_fmax_sound. exact Hm.
Qed.

Lemma np_max_complete (a : farray) (m : Qc) :
  Forall (fun y => fle y (Fin m)) (concat a) -> In (Fin m) (concat a) ->
  np_max a = Returned (Fin m).
Proof.
  unfold np_max. destruct (concat a) as [| x xs]; [intros _ [] |].
  intros Hall Hin. f_equal. apply fold_fmax_complete; assumption.
Qed.

Lemma np_max_returns (a : farray) (h w : nat) :
  rect h w a -> 0 < h -> 0 < w -> returns (np_max a).
Proof.
  intros [Hh Hw] Hhp Hwp. unfold np_max, returns.
  destruct a as [| row a]; simpl in Hh; [lia |].
  inversion Hw as [| ? ? Hrow _]; subst.
  destruct row as [| x row]; simpl in Hwp; [lia |].
  simpl. eexists. reflexivity.
Qed.

Lemma concat_amap (A B : Type) (f : A -> B) (a : ndarray A) :
  concat (amap f a) = map f (concat a).
Proof. unfold amap. symmetry. apply concat_map. Qed.

Lemma all_samples_concat (T : Type) (P : T -> Prop) (a : ndarray T) :
  all_samples P a <-> Forall P (concat a).
Proof. unfold all_samples. symmetry. apply Forall_concat. Qed.

Lemma quotient_le_one (a m : Qc) : (0 < m)%Qc -> (a <= m)%Qc -> (a / m <= 1)%Qc.
Proof.
  intros Hm Ha. apply Qcmult_lt_0_le_reg_r with (z := m); [exact Hm |].
  replace (a / m * m)%Qc with a.
  - rewrite Qcmult_1_l. exact Ha.
  - field. intro E. subst m. apply (Qclt_not_eq _ _ Hm). reflexivity.
Qed.

Lemma positive_nonzero (m : Qc) : (0 < m)%Qc -> m <> 0%Qc.
Proof. intros Hm E. subst m. apply (Qclt_not_eq _ _ Hm). reflexivity. Qed.

Lemma positive_compare (m : Qc) : (0 < m)%Qc -> (m ?= Qc_of_Z 0)%Qc = Gt.
Proof. intro Hm. apply Qcgt_alt. exact Hm. Qed.

(** C7 (as amended).  For every resampled vignetting field whose maximum is
    finite and strictly positive, the field divided by its maximum has
    maximum exactly 1 and no sample above 1. *)
Theorem normalized_peak_is_one (v : farray) (m : Qc) :
  np_max v = Returned (Fin m) -> (0 < m)%Qc ->
  exists r,
    normalize v = Returned r
    /\ np_max r = Returned (Fin 1%Qc)
    /\ all_samples (fun x => fle x (Fin 1%Qc)) r.
Proof.
  intros Hmax Hm. destruct (np_max_sound _ Hmax) as [Hall Hin].
  unfold normalize. rewrite Hmax. simpl bind.
  eexists. split; [reflexivity |].
  assert (Hle : Forall (fun x => fle x (Fin 1%Qc))
                  (concat (np_div_scalar v (Fin m)))).
  { unfold np_div_scalar. rewrite concat_amap. apply Forall_map.
    eapply Forall_impl; [| exact Hall].
    intros [a | | |] Ha; simpl in Ha; try contradiction.
    - rewrite fdiv_finite by (apply positive_nonzero; exact Hm).
      simpl. apply quotient_le_one; assumption.
    - simpl. rewrite (positive_compare Hm). exact I. }
  split.
  - apply np_max_complete; [exact Hle |].
    unfold np_div_scalar. rewrite concat_amap.
    apply in_map_iff. exists (Fin m). split; [| exact Hin].
    rewrite fdiv_finite by (apply positive_nonzero; exact Hm).
    f_equal. field. apply positive_nonzero. exact Hm.
  - apply all_samples_concat. exact Hle.
Qed.

(** C10.  When the resampled vignetting field is finite and its maximum is
    strictly positive, the divisor of line 71 is not zero and every sample
    of the quotient is finite. *)
Theorem positive_peak_divides_finitely (v : farray) (m : Qc) :
  all_finite v -> np_max v = Returned (Fin m) -> (0 < m)%Qc ->
  Fin m <> fzero
  /\ exists r,
       normalize v = Returned r
       /\ all_finite r
       /\ r = amap (fun x => match x with
                             | Fin a => Fin (a / m)%Qc
                             | _ => x
                             end) v.
Proof.
  intros Hfin Hmax Hm. split.
  - intro E. inversion E as [E']. rewrite Qc_of_Z_zero in E'.
    exact (positive_nonzero Hm E').
  - unfold normalize. rewrite Hmax. simpl bind.
    eexists. split; [reflexivity |].
    assert (Heq : np_div_scalar v (Fin m)
                  = amap (fun x => match x with
                                   | Fin a => Fin (a / m)%Qc
                                   | _ => x
                                   end) v).
    { unfold np_div_scalar, amap. apply map_ext_in. intros row Hrow.
      apply map_ext_in. intros x Hx.
      unfold all_finite, all_samples in Hfin. rewrite Forall_forall in Hfin.
      specialize (Hfin _ Hrow). rewrite Forall_forall in Hfin.
      specialize (Hfin _ Hx). destruct x as [a | | |]; try contradiction.
      apply fdiv_finite. apply positive_nonzero. exact Hm. }
    split; [| exact Heq].
    rewrite Heq. unfold all_finite, all_samples, amap.
    apply Forall_map. unfold all_finite, all_samples in Hfin.
    eapply Forall_impl; [| exact Hfin]. intros row Hrow. simpl.
    apply Forall_map. eapply Forall_impl; [| exact Hrow].
    intros [a | | |] Ha; simpl in *; try contradiction; exact I.
Qed.

(** *** The final clamp and cast *)

Lemma uint8_of_fval_range (x : fval) : in_uint8_range (uint8_of_fval x).
Proof.
  unfold in_uint8_range. destruct x as [q | | |]; simpl; try lia.
  pose proof (Z.mod_pos_bound (Z.quot (Qnum q) (Zpos (Qden q))) 256). lia.
Qed.




Lemma to_display_range (a : farray) : all_samples in_uint8_range (to_display a).
Proof.
  unfold to_display, astype_uint8. apply all_samples_amap.
  intro x. apply uint8_of_fval_range.
Qed.

Lemma elementwise_rect (A B C : Type) (e : exn) (f : A -> B -> C) (h w : nat)
  (a : ndarray A) (b : ndarray B) :
  rect h w a -> rect h w b -> exists c, elementwise e f a b = Returned c /\ rect h w c.
Proof.
  intros Ha Hb. unfold elementwise.
  destruct (zip_rows f a b) as [c |] eqn:E.
  - exists c. split; [reflexivity |].
    destruct (@zip_rows_rect _ _ _ f h w a b c Ha E) as [_ Hc]. exact Hc.
  - exfalso. revert h b Ha Hb E. induction a as [| r a IH]; intros h b [Hh Hw] [Hbh Hbw] E.
    + destruct b; [discriminate E | simpl in *; lia].
    + destruct b as [| s b]; [simpl in *; lia |].
      simpl in E. inversion Hw as [| ? ? Hr Ha']; subst.
      inversion Hbw as [| ? ? Hs Hb']; subst.
      destruct (zip_with f r s) as [t |] eqn:Et.
      * destruct (zip_rows f a b) as [c |] eqn:Ec; [discriminate E |].
        apply (IH (length a) b); [split; [reflexivity | exact Ha'] | | exact Ec].
        split; [simpl in Hbh; lia | exact Hb'].
      * clear - Et Hs. revert s Hs Et.
        induction r as [| x r IHr]; intros [| y s] Hs Et; simpl in *;
          try discriminate.
        destruct (zip_with f r s) eqn:E'; [discriminate Et |].
        apply (IHr s); [lia | exact E'].
Qed.

Lemma rect_dimensions (T : Type) (h w : nat) (a : ndarray T) :
  rect h w a -> 0 < h -> height a = h /\ width a = w.
Proof.
  intros [Hh Hw] Hp. unfold height, width. split; [exact Hh |].
  destruct a as [| row a]; simpl in Hh; [lia |].
  inversion Hw; subst. reflexivity.
Qed.

Lemma add_nothing (p nr : farray) (h w : nat) :
  rect h w p -> rect h w nr -> all_finite nr ->
  elementwise Cv2Error fadd p (np_mul_scalar nr fzero) = Returned p.
Proof.
  intros Hp Hn Hf. unfold elementwise, np_mul_scalar.
  rewrite (rect_as_tabulate Hn), amap_tabulate.
  rewrite (rect_as_tabulate Hp) at 1. rewrite zip_rows_tabulate.
  f_equal. transitivity (tabulate h w (pixel p)).
  - apply tabulate_ext. intros i j Hi Hj.
    rewrite fmul_zero_r by (apply (pixel_of_all_samples Hf Hn Hi Hj)).
    apply fadd_zero_r.
  - symmetry. apply rect_as_tabulate. exact Hp.
Qed.

(** ** The dtype check of cv2.multiply and cv2.add *)

Lemma dtype_eqb_eq (s t : dtype) : dtype_eqb s t = true <-> s = t.
Proof. destruct s, t; simpl; split; intro H; try reflexivity; discriminate H. Qed.

Lemma dtype_eqb_refl (t : dtype) : dtype_eqb t t = true.
Proof. destruct t; reflexivity. Qed.

Lemma not_float32 (t : dtype) : t <> Float32 -> t = Float64.
Proof. destruct t; [intro H; contradiction H; reflexivity | reflexivity]. Qed.

(** Operands of one dtype: the operation on the samples decides. *)
Lemma cv2_arith_same (f : fval -> fval -> fval) (t : dtype) (a b : farray) :
  cv2_arith f (typed t a) (typed t b)
  = (r <- elementwise Cv2Error f a b ;; Returned (typed t r))%py.
Proof.
  unfold cv2_arith. simpl. rewrite dtype_eqb_refl. reflexivity.
Qed.

(** Operands of different dtypes: cv2.error, whatever the samples. *)
Lemma cv2_arith_mixed (f : fval -> fval -> fval) (s t : dtype) (a b : farray) :
  s <> t -> cv2_arith f (typed s a) (typed t b) = Raised Cv2Error.
Proof.
  intro Hst. unfold cv2_arith, elementwise. simpl.
  destruct (zip_rows f a b); simpl; [| reflexivity].
  destruct (dtype_eqb s t) eqn:E; [| reflexivity].
  apply dtype_eqb_eq in E. contradiction.
Qed.

Lemma cv2_arith_returned (f : fval -> fval -> fval) (a b c : tarray) :
  cv2_arith f a b = Returned c ->
  elementwise Cv2Error f (samples a) (samples b) = Returned (samples c)
  /\ dtype_of b = dtype_of a /\ dtype_of c = dtype_of a.
Proof.
  unfold cv2_arith. intro H.
  destruct (elementwise Cv2Error f (samples a) (samples b)) as [r | e];
    [| discriminate H]. simpl in H.
  destruct (dtype_eqb (dtype_of a) (dtype_of b)) eqn:E; [| discriminate H].
  apply dtype_eqb_eq in E. inversion H; subst c. simpl.
  repeat split; congruence.
Qed.

Section StyleProperties.

Variable cvtColor_BGR2GRAY : ndarray (Z * Z * Z) -> outcome image8.
Variable resize_cubic : farray -> size -> outcome farray.

Local Abbreviation gray := (to_gray cvtColor_BGR2GRAY).
Local Abbreviation apply := (apply_style cvtColor_BGR2GRAY resize_cubic).
Local Abbreviation without_noise := (vignette_only cvtColor_BGR2GRAY resize_cubic).

(** C4.  Every sample of an image returned by apply_style is a uint8 value
    in [0, 255], whatever the clean image, the fingerprint and noise_alpha
    are; [to_display_saturates] adds that an intermediate value outside the
    range comes out as 0 or 255, not wrapped. *)
Theorem stylized_samples_are_displayable (clean_image : picture)
  (vignetting_map noise_map : tarray) (noise_alpha : fval) (out : image8) :
  apply clean_image vignetting_map noise_map noise_alpha = Returned out ->
  all_samples in_uint8_range out.
Proof.
  unfold apply_style. intro H.
  do 6 invert_bind H. inversion H; subst out. apply to_display_range.
Qed.

(** C5.  With noise_alpha = 0, apply_style returns what the same computation
    returns with the additive step left out, the clamped product of the
    luminance image and the normalized vignetting field, and it raises when
    that computation raises; the resampled noise field is finite, as every
    field that extract_fingerprint produces is, and the two fields of the
    fingerprint have one dtype, as the two maps of one extraction (float64)
    and the two maps read by load_maps (float32) have: what the statement
    needs of it is that the noise field is float32 when the vignetting
    field is. *)
Theorem zero_alpha_disables_noise (clean_image : picture)
  (vignetting_map noise_map : tarray) :
  (forall g, gray clean_image = Returned g -> rect (height g) (width g) g) ->
  (forall g nr,
     gray clean_image = Returned g ->
     resize_cubic (samples noise_map) (width g, height g) = Returned nr ->
     rect (height g) (width g) nr /\ all_finite nr) ->
  (dtype_of vignetting_map = Float32 -> dtype_of noise_map = Float32) ->
  apply clean_image vignetting_map noise_map fzero
  = without_noise clean_image vignetting_map noise_map.
Proof.
  intros Hclean Hnoise Hdtype. unfold apply_style, vignette_only.
  destruct (gray clean_image) as [g | e] eqn:Eg; [| reflexivity]. simpl bind.
  destruct (resize_cubic (samples vignetting_map) (width g, height g)) as [vr | e];
    [| reflexivity]. simpl bind.
  destruct (resize_cubic (samples noise_map) (width g, height g)) as [nr | e] eqn:En;
    [| reflexivity]. simpl bind.
  destruct (normalize vr) as [vn | e]; [| reflexivity]. simpl bind.
  destruct (cv2_multiply (typed Float32 (astype_float g))
              (typed (dtype_of vignetting_map) vn)) as [p | e] eqn:Ep;
    [| reflexivity].
  simpl bind.
  destruct (Hnoise g nr eq_refl En) as [Hr Hf].
  unfold cv2_multiply in Ep.
  destruct (@cv2_arith_returned _ _ _ _ Ep) as [Es [Hv Hp']]. simpl in Es, Hv, Hp'.
  destruct p as [tp p]. simpl in Es, Hp'. subst tp.
  assert (Hp : rect (height g) (width g) p).
  { unfold elementwise in Es.
    destruct (zip_rows fmul (astype_float g) vn) as [c |] eqn:Ez; [| discriminate Es].
    inversion Es; subst c.
    apply (@zip_rows_rect _ _ _ fmul (height g) (width g) _ _ _
             (rect_amap of_Z (Hclean g eq_refl)) Ez). }
  rewrite (Hdtype Hv). unfold cv2_add. rewrite cv2_arith_same.
  rewrite (add_nothing Hp Hr Hf). reflexivity.
Qed.

(** What apply_style does once the image is non-empty and the two fields
    are non-empty: it returns an image of the clean image's height and
    width when both fields are float32, and raises cv2.error otherwise; the
    fields need not have the size of the image, nor of each other. *)
Lemma apply_style_outcome (clean_image : picture)
  (vignetting_map noise_map : tarray) (noise_alpha : fval)
  (h w hv wv hn wn : nat) :
  (forall bgr, rect h w bgr ->
     exists g, cvtColor_BGR2GRAY bgr = Returned g /\ rect h w g) ->
  (forall a h0 w0, rect h0 w0 a -> 0 < h0 -> 0 < w0 ->
     exists r, resize_cubic a (w, h) = Returned r /\ rect h w r) ->
  pixels clean_image h w -> 0 < h -> 0 < w ->
  rect hv wv (samples vignetting_map) -> 0 < hv -> 0 < wv ->
  rect hn wn (samples noise_map) -> 0 < hn -> 0 < wn ->
  (dtype_of vignetting_map = Float32 -> dtype_of noise_map = Float32 ->
   exists out,
     apply clean_image vignetting_map noise_map noise_alpha = Returned out
     /\ rect h w out)
  /\ (dtype_of vignetting_map <> Float32 \/ dtype_of noise_map <> Float32 ->
      apply clean_image vignetting_map noise_map noise_alpha = Raised Cv2Error).
Proof.
  intros Hcvt Hresize Hpix Hh Hw Hv Hhv Hwv Hn Hhn Hwn.
  assert (Hg : exists g, gray clean_image = Returned g /\ rect h w g).
  { destruct clean_image as [g | bgr]; simpl in *.
    - exists g. split; [reflexivity | exact Hpix].
    - apply Hcvt. exact Hpix. }
  destruct Hg as [g [Eg Hg]].
  destruct (rect_dimensions Hg Hh) as [Eh Ew].
  destruct (Hresize _ _ _ Hv Hhv Hwv) as [vr [Ev Hvr]].
  destruct (Hresize _ _ _ Hn Hhn Hwn) as [nr [En Hnr]].
  destruct (np_max_returns Hvr Hh Hw) as [peak Epeak].
  destruct (@elementwise_rect _ _ _ Cv2Error fmul h w (astype_float g)
              (np_div_scalar vr peak)) as [p [Ep Hp]].
  { apply rect_amap. exact Hg. }
  { apply rect_amap. exact Hvr. }
  destruct (@elementwise_rect _ _ _ Cv2Error fadd h w p
              (np_mul_scalar nr noise_alpha)) as [q [Eq Hq]].
  { exact Hp. }
  { apply rect_amap. exact Hnr. }
  assert (Hrun : apply clean_image vignetting_map noise_map noise_alpha
                 = (image_with_vignette <-
                      cv2_multiply (typed Float32 (astype_float g))
                        (typed (dtype_of vignetting_map) (np_div_scalar vr peak)) ;;
                    final_image_float <-
                      cv2_add image_with_vignette
                        (typed (dtype_of noise_map) (np_mul_scalar nr noise_alpha)) ;;
                    Returned (to_display (samples final_image_float)))%py).
  { unfold apply_style. rewrite Eg. simpl bind. rewrite Eh, Ew, Ev. simpl bind.
    rewrite En. simpl bind. unfold normalize. rewrite Epeak. reflexivity. }
  rewrite Hrun. clear Hrun. unfold cv2_multiply, cv2_add. split.
  - intros Tv Tn. rewrite Tv, Tn. exists (to_display q).
    rewrite cv2_arith_same, Ep. simpl bind. rewrite cv2_arith_same, Eq.
    split; [reflexivity |].
    unfold to_display, astype_uint8, np_clip. apply rect_amap. apply rect_amap.
    exact Hq.
  - intros [Tv | Tn].
    + rewrite cv2_arith_mixed; [reflexivity |].
      intro E. apply Tv. symmetry. exact E.
    + destruct (dtype_of vignetting_map) eqn:Tv.
      * rewrite cv2_arith_same, Ep. simpl bind.
        rewrite cv2_arith_mixed; [reflexivity |].
        intro E. apply Tn. symmetry. exact E.
      * rewrite cv2_arith_mixed; [reflexivity | discriminate].
Qed.



End StyleProperties.

(** ** Solid gray images, end to end *)

Lemma rect_full (T : Type) (h w : nat) (x : T) : rect h w (full h w x).
Proof. rewrite full_as_tabulate. apply rect_tabulate_shape. Qed.

Lemma elementwise_full (A B C : Type) (e : exn) (f : A -> B -> C) (h w : nat)
  (x : A) (y : B) :
  elementwise e f (full h w x) (full h w y) = Returned (full h w (f x y)).
Proof.
  unfold elementwise. rewrite !full_as_tabulate, zip_rows_tabulate. reflexivity.
Qed.

Lemma pixel_full (h w : nat) (x : fval) (i j : nat) :
  i < h -> j < w -> pixel (full h w x) i j = x.
Proof.
  intros Hi Hj. unfold pixel, full.
  rewrite (nth_repeat_lt _ _ Hi). apply nth_repeat_lt. exact Hj.
Qed.

Lemma fold_fadd_repeat (g : Qc) (n : nat) :
  forall a : Qc,
    fold_left fadd (repeat (Fin g) n) (Fin a)
    = Fin (a + Qc_of_Z (Z.of_nat n) * g)%Qc.
Proof.
  induction n as [| n IH]; intro a.
  - simpl. f_equal. rewrite Qc_of_Z_zero. ring.
  - change (repeat (Fin g) (S n)) with (Fin g :: repeat (Fin g) n).
    simpl fold_left. rewrite IH, Qc_of_Z_succ. f_equal. ring.
Qed.

(** The mean of [n] copies of a solid image is that image. *)
Lemma mean_of_identical (h w n : nat) (g : Qc) :
  0 < n -> mean_image h w (repeat (full h w (Fin g)) n) = full h w (Fin g).
Proof.
  intro Hn. unfold mean_image.
  etransitivity; [| symmetry; apply full_as_tabulate].
  apply tabulate_ext. intros i j Hi Hj.
  unfold pixel_sum. rewrite map_repeat. cbv beta. rewrite (pixel_full _ Hi Hj).
  unfold fzero. rewrite fold_fadd_repeat, repeat_length.
  assert (Hnz : Qc_of_Z (Z.of_nat n) <> 0%Qc).
  { intro E. apply Qc_of_Z_inj in E. lia. }
  unfold of_Z. rewrite fdiv_finite by exact Hnz.
  f_equal. rewrite Qc_of_Z_zero. field. exact Hnz.
Qed.

Lemma has_shape_full (T : Type) (h w : nat) (x : T) : has_shape h w (full h w x) = true.
Proof. apply has_shape_rect. apply rect_full. Qed.

Lemma usable_samples_identical (imread_grayscale : string -> option image8)
  (resize_area : image8 -> size -> outcome image8) (res : size) (s : farray)
  (paths : list string) :
  (forall p, In p paths -> usable_sample imread_grayscale resize_area res p = Some s) ->
  usable_samples imread_grayscale resize_area res paths = repeat s (length paths).
Proof.
  induction paths as [| p paths IH]; intro H; simpl; [reflexivity |].
  rewrite (H p (or_introl eq_refl)). f_equal. apply IH.
  intros q Hq. apply H. right. exact Hq.
Qed.

Section EndToEnd.

Variable listdir : string -> outcome (list string).
Variable imread_grayscale : string -> option image8.
Variable resize_area : image8 -> size -> outcome image8.
Variable GaussianBlur : farray -> size -> outcome farray.
Variable cvtColor_BGR2GRAY : ndarray (Z * Z * Z) -> outcome image8.
Variable resize_cubic : farray -> size -> outcome farray.
(** The rounding of [a.astype(np.float32)] on one sample. *)
Variable float32 : fval -> fval.

(** C9.  Ten solid-gray images of level 128, processed at 4 x 4 with a
    3 x 3 kernel, give the vignetting field uniformly 128 and the noise
    field uniformly 0; that fingerprint, converted to float32 as save_maps
    writes it and load_maps reads it back, applied with noise_alpha = 1 to
    a 4 x 4 solid-gray image of level 200 gives the image uniformly 200.
    The resize to 4 x 4 and the blur map a solid image to the solid image
    of the same level, and 128 and 0 are float32 numbers. *)
Theorem solid_gray_end_to_end (dir : string) (names : list string) :
  listdir dir = Returned names ->
  length (candidate_paths dir names) = 10 ->
  (forall p, In p (candidate_paths dir names) ->
     exists h0 w0, 0 < h0 /\ 0 < w0
       /\ imread_grayscale p = Some (full h0 w0 128%Z)) ->
  (forall h0 w0, 0 < h0 -> 0 < w0 ->
     resize_area (full h0 w0 128%Z) (4, 4) = Returned (full 4 4 128%Z)) ->
  (forall c, GaussianBlur (full 4 4 (Fin c)) (3, 3) = Returned (full 4 4 (Fin c))) ->
  (forall c, resize_cubic (full 4 4 (Fin c)) (4, 4) = Returned (full 4 4 (Fin c))) ->
  float32 (of_Z 128) = of_Z 128 -> float32 fzero = fzero ->
  result (extract_fingerprint listdir imread_grayscale resize_area GaussianBlur
            dir (4, 4) (3, 3))
  = Returned (Some (full 4 4 (of_Z 128), full 4 4 fzero))
  /\ apply_style cvtColor_BGR2GRAY resize_cubic (Gray (full 4 4 200%Z))
       (astype_float32 float32 (full 4 4 (of_Z 128)))
       (astype_float32 float32 (full 4 4 fzero)) (of_Z 1)
     = Returned (full 4 4 200%Z).
Proof.
  intros Hdir Hlen Himg Harea Hblur Hcubic H128 H0. split.
  - assert (Hne : candidate_paths dir names <> []).
    { intro E. rewrite E in Hlen. discriminate Hlen. }
    destruct (@extract_fingerprint_summary listdir imread_grayscale resize_area
                GaussianBlur 4 4 dir names (3, 3) Hdir Hne) as [ws [_ [_ Hrun]]].
    rewrite Hrun. clear Hrun.
    rewrite (@usable_samples_identical imread_grayscale resize_area (4, 4)
               (full 4 4 (of_Z 128)) (candidate_paths dir names)).
    + rewrite repeat_length, Hlen. simpl Nat.eqb. cbv iota.
      rewrite <- Hlen at 1.
      unfold of_Z at 1. rewrite mean_of_identical by lia.
      unfold separate. rewrite Hblur. cbn [bind].
      unfold np_sub. rewrite elementwise_full. cbn [bind].
      reflexivity.
    + intros p Hp. destruct (Himg p Hp) as [h0 [w0 [Hh0 [Hw0 Er]]]].
      unfold usable_sample. rewrite Er, (Harea h0 w0 Hh0 Hw0).
      simpl fst. simpl snd. rewrite has_shape_full.
      unfold astype_float. rewrite amap_full. reflexivity.
  - unfold apply_style, to_gray, astype_float32. cbn [bind samples dtype_of].
    rewrite !amap_full, H128, H0.
    change (width (full 4 4 200%Z)) with 4. change (height (full 4 4 200%Z)) with 4.
    unfold of_Z at 1. rewrite Hcubic. cbn [bind].
    unfold fzero at 1. rewrite Hcubic. cbn [bind].
    vm_compute. reflexivity.
Qed.

End EndToEnd.

(** The two maps that extract_fingerprint returns are float64 arrays;
    passed to apply_style as they are, without the conversion to float32
    that save_maps and load_maps put in between, they make cv2.multiply
    raise, whatever the clean image and noise_alpha are. *)
Theorem extracted_maps_need_conversion
  (listdir : string -> outcome (list string))
  (imread_grayscale : string -> option image8)
  (resize_area : image8 -> size -> outcome image8)
  (GaussianBlur : farray -> size -> outcome farray)
  (cvtColor_BGR2GRAY : ndarray (Z * Z * Z) -> outcome image8)
  (resize_cubic : farray -> size -> outcome farray)
  (dir : string) (W H : nat) (k : size) (v n : farray)
  (clean_image : picture) (noise_alpha : fval) (h w : nat) :
  (forall bgr, rect h w bgr ->
     exists g, cvtColor_BGR2GRAY bgr = Returned g /\ rect h w g) ->
  (forall a h0 w0, rect h0 w0 a -> 0 < h0 -> 0 < w0 ->
     exists r, resize_cubic a (w, h) = Returned r /\ rect h w r) ->
  pixels clean_image h w -> 0 < h -> 0 < w -> 0 < H -> 0 < W ->
  result (extract_fingerprint listdir imread_grayscale resize_area GaussianBlur
            dir (W, H) k) = Returned (Some (v, n)) ->
  apply_style cvtColor_BGR2GRAY resize_cubic clean_image
    (typed Float64 v) (typed Float64 n) noise_alpha
  = Raised Cv2Error.
Proof.
  intros Hcvt Hresize Hpix Hh Hw HH HW Hres.
  destruct (@extract_fingerprint_returned listdir imread_grayscale resize_area
              GaussianBlur W H dir k v n Hres) as [names [_ [_ [_ Hs]]]].
  unfold np_sub, elementwise in Hs.
  destruct (zip_rows fsub
              (mean_image H W
                 (usable_samples imread_grayscale resize_area (W, H)
                    (candidate_paths dir names))) v)
    as [r |] eqn:Hz; [| discriminate Hs].
  inversion Hs; subst r.
  destruct (@zip_rows_rect _ _ _ fsub H W _ _ _ (rect_tabulate_shape _ _ _) Hz)
    as [Hv Hn].
  apply (proj2 (@apply_style_outcome cvtColor_BGR2GRAY resize_cubic clean_image
                  (typed Float64 v) (typed Float64 n) noise_alpha h w H W H W
                  Hcvt Hresize Hpix Hh Hw Hv HH HW Hn HH HW)).
  left. discriminate.
Qed.

(** * The properties on concrete inputs *)

(** The extraction on [Disk]: three candidates, one of which does not
    decode. *)

Lemma decomposition_is_lossless_witness :
  exists names,
    Disk.listdir Disk.dir = Returned names
    /\ Ref.GaussianBlur
         (mean_image 2 2
            (usable_samples Disk.imread_grayscale Ref.resize_area (2, 2)
               (candidate_paths Disk.dir names))) (3, 3)
       = Returned (fst Disk.fingerprint)
    /\ np_add (fst Disk.fingerprint) (snd Disk.fingerprint)
       = Returned
           (mean_image 2 2
              (usable_samples Disk.imread_grayscale Ref.resize_area (2, 2)
                 (candidate_paths Disk.dir names))).
Proof.
  apply (@decomposition_is_lossless Disk.listdir Disk.imread_grayscale
           Ref.resize_area Ref.GaussianBlur 2 2 Disk.dir (3, 3)
           (fst Disk.fingerprint) (snd Disk.fingerprint)).
  - intros a b Ha Hf Hb. eapply RefContract.GaussianBlur_finite; eassumption.
  - vm_compute. reflexivity.
Defined.

Lemma no_usable_image_no_fingerprint_witness :
  result (extract_fingerprint Disk.broken_listdir Disk.broken_imread
            Ref.resize_area Ref.GaussianBlur Disk.dir (2, 2) (3, 3))
  = Returned None.
Proof.
  apply (@no_usable_image_no_fingerprint Disk.broken_listdir Disk.broken_imread
           Ref.resize_area Ref.GaussianBlur 2 2 Disk.dir (3, 3)).
  right. exists ["x.png"; "y.jpeg"]%string. split; reflexivity.
Defined.

Lemma partial_failure_is_tolerated_witness :
  failing_paths Disk.imread_grayscale Ref.resize_area (2, 2)
    (candidate_paths Disk.dir ["a.png"; "broken.JPG"; "notes.txt"; "c.bmp"]%string)
  = ["raw/broken.JPG"%string]
  /\ exists v n,
       result (extract_fingerprint Disk.listdir Disk.imread_grayscale
                 Ref.resize_area Ref.GaussianBlur Disk.dir (2, 2) (3, 3))
       = Returned (Some (v, n))
       /\ Ref.GaussianBlur
            (mean_image 2 2
               (usable_samples Disk.imread_grayscale Ref.resize_area (2, 2)
                  (candidate_paths Disk.dir
                     ["a.png"; "broken.JPG"; "notes.txt"; "c.bmp"]%string)))
            (3, 3)
          = Returned v
       /\ np_sub
            (mean_image 2 2
               (usable_samples Disk.imread_grayscale Ref.resize_area (2, 2)
                  (candidate_paths Disk.dir
                     ["a.png"; "broken.JPG"; "notes.txt"; "c.bmp"]%string)))
            v
          = Returned n
       /\ map warned_name
            (filter is_warning
               (printed (extract_fingerprint Disk.listdir Disk.imread_grayscale
                           Ref.resize_area Ref.GaussianBlur Disk.dir (2, 2) (3, 3))))
          = map (fun p => Some (basename p))
              (failing_paths Disk.imread_grayscale Ref.resize_area (2, 2)
                 (candidate_paths Disk.dir
                    ["a.png"; "broken.JPG"; "notes.txt"; "c.bmp"]%string)).
Proof.
  split; [reflexivity |].
  apply (@partial_failure_is_tolerated Disk.listdir Disk.imread_grayscale
           Ref.resize_area Ref.GaussianBlur 2 2 Disk.dir
           ["a.png"; "broken.JPG"; "notes.txt"; "c.bmp"]%string (3, 3)).
  - reflexivity.
  - vm_compute. discriminate.
  - intros a Ha.
    apply (@RefContract.GaussianBlur_returns a 2 2 3 3); try reflexivity;
      try exact Ha; lia.
Defined.

Lemma same_value_eq (x y : fval) : same_value x y = true -> x = y.
Proof.
  destruct x as [a | | |], y as [b | | |]; simpl; intro H;
    try reflexivity; try discriminate H.
  f_equal. apply Qc_is_canon. apply Qeq_bool_eq. exact H.
Qed.

(** Ten solid-gray files; 128 and 0 are binary32 numbers. *)
Lemma solid_gray_end_to_end_witness :
  result (extract_fingerprint Disk.gray_listdir Disk.gray_imread
            Ref.resize_area Ref.GaussianBlur Disk.dir (4, 4) (3, 3))
  = Returned (Some (full 4 4 (of_Z 128), full 4 4 fzero))
  /\ apply_style Ref.cvtColor_BGR2GRAY Ref.resize_cubic (Gray (full 4 4 200%Z))
       (astype_float32 Ref.float32 (full 4 4 (of_Z 128)))
       (astype_float32 Ref.float32 (full 4 4 fzero)) (of_Z 1)
     = Returned (full 4 4 200%Z).
Proof.
  apply (@solid_gray_end_to_end Disk.gray_listdir Disk.gray_imread
           Ref.resize_area Ref.GaussianBlur Ref.cvtColor_BGR2GRAY Ref.resize_cubic
           Ref.float32 Disk.dir
           ["0.png"; "1.png"; "2.png"; "3.png"; "4.png";
            "5.png"; "6.png"; "7.png"; "8.png"; "9.png"]%string).
  - reflexivity.
  - reflexivity.
  - intros p _. exists 2, 3. repeat split; try lia.
  - intros h0 w0 Hh Hw. apply RefContract.resize_area_const; try lia.
    unfold in_uint8_range. lia.
  - intro c. apply RefContract.GaussianBlur_3x3_const; lia.
  - intro c. apply RefContract.resize_cubic_same_size; [apply rect_full | lia | lia].
  - apply same_value_eq. vm_compute. reflexivity.
  - reflexivity.
Defined.

(** apply_style on concrete inputs. *)



(** Intermediate values 1050 and -875 come out as 255 and 0. *)
Lemma stylized_samples_are_displayable_witness :
  all_samples in_uint8_range [[255; 0]]%Z.
Proof.
  apply (@stylized_samples_are_displayable Ref.cvtColor_BGR2GRAY Ref.resize_cubic
           (Gray [[100; 250]]%Z) (typed Float32 [[of_Z 2; of_Z 1]])
           (typed Float32 [[of_Z 1000; of_Z (-1000)]]) (of_Z 1)).
  vm_compute. reflexivity.
Defined.

Lemma zero_alpha_disables_noise_witness :
  apply_style Ref.cvtColor_BGR2GRAY Ref.resize_cubic (Gray [[100; 200]]%Z)
    (typed Float32 [[of_Z 1; of_Z 2]])
    (typed Float32 [[of_Z 5; of_Z 7]; [of_Z 9; of_Z 11]]) fzero
  = vignette_only Ref.cvtColor_BGR2GRAY Ref.resize_cubic (Gray [[100; 200]]%Z)
      (typed Float32 [[of_Z 1; of_Z 2]])
      (typed Float32 [[of_Z 5; of_Z 7]; [of_Z 9; of_Z 11]]).
Proof.
  apply zero_alpha_disables_noise.
  - intros g Hg. inversion Hg; subst g. split; [reflexivity | repeat constructor].
  - intros g nr Hg Hnr. inversion Hg; subst g.
    assert (Hn : rect 2 2 [[of_Z 5; of_Z 7]; [of_Z 9; of_Z 11]]).
    { split; [reflexivity | repeat constructor]. }
    split.
    + destruct (@RefContract.resize_cubic_returns _ 2 2 1 2 Hn) as [r [Er Hr]];
        try lia.
      change (width [[100; 200]]%Z) with 2 in Hnr.
      change (height [[100; 200]]%Z) with 1 in Hnr.
      simpl samples in Hnr.
      rewrite Er in Hnr. inversion Hnr; subst nr. exact Hr.
    + eapply RefContract.resize_cubic_finite; [exact Hn | | exact Hnr].
      repeat constructor.
  - intros _. reflexivity.
Defined.



(** C7 (counterexample).  The field of an all-black batch is zero: its
    quotient by its maximum is NaN throughout, and so is the maximum of the
    quotient.  A negative field ends above 1. *)
Lemma zero_field_has_no_unit_peak :
  normalize (zeros 2 2) = Returned (full 2 2 NaN)
  /\ np_max (full 2 2 NaN) = Returned NaN
  /\ (exists r,
        normalize [[of_Z (-1); of_Z (-2)]] = Returned r
        /\ amap clamped_floor r = [[1; 2]]%Z).
Proof.
  split; [vm_compute; reflexivity |]. split; [vm_compute; reflexivity |].
  eexists. split; [reflexivity |]. vm_compute. reflexivity.
Qed.

Lemma normalized_peak_is_one_witness :
  exists r,
    normalize [[of_Z 1; of_Z 2]; [of_Z 4; of_Z 3]] = Returned r
    /\ np_max r = Returned (Fin 1%Qc)
    /\ all_samples (fun x => fle x (Fin 1%Qc)) r.
Proof.
  apply (@normalized_peak_is_one [[of_Z 1; of_Z 2]; [of_Z 4; of_Z 3]] (Qc_of_Z 4)).
  - vm_compute. reflexivity.
  - reflexivity.
Defined.

Lemma positive_peak_divides_finitely_witness :
  Fin (Qc_of_Z 4) <> fzero
  /\ exists r,
       normalize [[of_Z 1; of_Z 2]; [of_Z 4; of_Z 3]] = Returned r
       /\ all_finite r
       /\ r = amap (fun x => match x with
                             | Fin a => Fin (a / Qc_of_Z 4)%Qc
                             | _ => x
                             end) [[of_Z 1; of_Z 2]; [of_Z 4; of_Z 3]].
Proof.
  apply (@positive_peak_divides_finitely [[of_Z 1; of_Z 2]; [of_Z 4; of_Z 3]]
           (Qc_of_Z 4)).
  - repeat constructor.
  - vm_compute. reflexivity.
  - reflexivity.
Defined.

(** * Further properties of the extraction *)

Lemma fold_fadd_permutation (l l' : list fval) :
  Permutation l l' ->
  Forall finite l ->
  forall a, finite a -> fold_left fadd l a = fold_left fadd l' a.
Proof.
  induction 1 as [| x l l' Hp IH | x y l | l l' l'' Hp1 IH1 Hp2 IH2];
    intros Hl a Ha.
  - reflexivity.
  - inversion Hl; subst. simpl. apply IH; [assumption |].
    destruct a, x; simpl in *; try contradiction; exact I.
  - inversion Hl as [| ? ? Hy Hl']; subst. inversion Hl' as [| ? ? Hx Hl'']; subst.
    simpl. f_equal.
    destruct a as [a | | |], x as [x | | |], y as [y | | |]; simpl in *;
      try contradiction.
    f_equal. ring.
  - rewrite IH1 by assumption. apply IH2; [| assumption].
    eapply Permutation_Forall; eassumption.
Qed.

Lemma filter_permutation (A : Type) (f : A -> bool) (l l' : list A) :
  Permutation l l' -> Permutation (filter f l) (filter f l').
Proof.
  induction 1 as [| x l l' Hp IH | x y l | l l' l'' Hp1 IH1 Hp2 IH2]; simpl.
  - constructor.
  - destruct (f x); [constructor; exact IH | exact IH].
  - destruct (f x), (f y); try constructor; apply Permutation_refl.
  - eapply Permutation_trans; eassumption.
Qed.

Section ExtractionFurther.

Variable listdir : string -> outcome (list string).
Variable imread_grayscale : string -> option image8.
Variable resize_area : image8 -> size -> outcome image8.
Variable GaussianBlur : farray -> size -> outcome farray.
Variables W H : nat.

Local Abbreviation sample := (usable_sample imread_grayscale resize_area (W, H)).
Local Abbreviation samples := (usable_samples imread_grayscale resize_area (W, H)).
Local Abbreviation failing := (failing_paths imread_grayscale resize_area (W, H)).
Local Abbreviation loop := (accumulate_images imread_grayscale resize_area (W, H)).

Lemma usable_samples_permutation (paths paths' : list string) :
  Permutation paths paths' -> Permutation (samples paths) (samples paths').
Proof.
  induction 1 as [| x l l' Hp IH | x y l | l l' l'' Hp1 IH1 Hp2 IH2]; simpl.
  - constructor.
  - destruct (sample x); [constructor; exact IH | exact IH].
  - destruct (sample x), (sample y); try constructor; apply Permutation_refl.
  - eapply Permutation_trans; eassumption.
Qed.

Lemma mean_image_permutation (good good' : list farray) :
  Permutation good good' ->
  Forall (fun s => rect H W s /\ all_finite s) good ->
  mean_image H W good = mean_image H W good'.
Proof.
  intros Hp Hwf. unfold mean_image. apply tabulate_ext. intros i j Hi Hj.
  rewrite (Permutation_length Hp). f_equal. unfold pixel_sum.
  apply fold_fadd_permutation.
  - apply Permutation_map. exact Hp.
  - apply Forall_map. eapply Forall_impl; [| exact Hwf].
    intros s [Hr Hf]. apply (pixel_of_all_samples Hf Hr Hi Hj).
  - exact I.
Qed.

Lemma counted_plus_failing (paths : list string) :
  length (samples paths) + length (failing paths) = length paths.
Proof.
  unfold failing_paths. induction paths as [| p paths IH]; simpl; [reflexivity |].
  destruct (sample p); simpl; lia.
Qed.

(** Every candidate is either added to the accumulator and counted, or
    skipped with one warning: none is lost and none is counted twice. *)
Theorem every_candidate_is_counted_or_warned (paths : list string)
  (warnings : list message) (accumulator : farray) (processed_image_count : nat) :
  loop paths (zeros H W) 0 = (warnings, (accumulator, processed_image_count)) ->
  processed_image_count + length warnings = length paths
  /\ Forall (fun m => is_warning m = true) warnings.
Proof.
  intro Hrun.
  destruct (accumulate_images_summary imread_grayscale resize_area W H paths [])
    as [ws [Hsum [Hw Hn]]].
  unfold zeros in Hrun. rewrite full_as_tabulate in Hrun.
  change (tabulate H W (fun _ _ : nat => fzero)) with (tabulate H W (pixel_sum []))
    in Hrun.
  change 0 with (length (@nil farray)) in Hrun.
  rewrite Hsum in Hrun. inversion Hrun; subst. clear Hrun.
  split; [| exact Hw].
  simpl app. apply (f_equal (@length _)) in Hn. rewrite !length_map in Hn.
  rewrite Hn. apply counted_plus_failing.
Qed.

(** The accumulated sum and the count do not depend on the order in which
    the candidates are visited. *)
Theorem accumulation_order_is_irrelevant (paths paths' : list string) :
  Permutation paths paths' ->
  snd (loop paths (zeros H W) 0) = snd (loop paths' (zeros H W) 0).
Proof.
  intro Hp.
  destruct (accumulate_images_summary imread_grayscale resize_area W H paths [])
    as [ws [Hsum _]].
  destruct (accumulate_images_summary imread_grayscale resize_area W H paths' [])
    as [ws' [Hsum' _]].
  unfold zeros. rewrite full_as_tabulate.
  change (tabulate H W (fun _ _ : nat => fzero)) with (tabulate H W (pixel_sum [])).
  change 0 with (length (@nil farray)).
  rewrite Hsum, Hsum'. simpl.
  pose proof (usable_samples_permutation Hp) as Hs.
  f_equal.
  - apply tabulate_ext. intros i j Hi Hj. unfold pixel_sum.
    apply fold_fadd_permutation.
    + apply Permutation_map. exact Hs.
    + apply Forall_map. eapply Forall_impl; [| apply usable_samples_wf].
      intros s [Hr Hf]. apply (pixel_of_all_samples Hf Hr Hi Hj).
    + exact I.
  - apply Permutation_length. exact Hs.
Qed.

(** Both fields of a returned fingerprint have the processing resolution:
    H rows of W samples. *)
Theorem fingerprint_has_processing_shape (dir : string) (k : size) (v n : farray) :
  result (extract_fingerprint listdir imread_grayscale resize_area GaussianBlur
            dir (W, H) k) = Returned (Some (v, n)) ->
  rect H W v /\ rect H W n.
Proof.
  intro Hres.
  destruct (@extract_fingerprint_returned listdir imread_grayscale resize_area
              GaussianBlur W H dir k v n Hres) as [names [_ [_ [_ Hs]]]].
  unfold np_sub, elementwise in Hs.
  destruct (zip_rows fsub
              (mean_image H W (samples (candidate_paths dir names))) v)
    as [r |] eqn:Hz; [| discriminate Hs].
  inversion Hs; subst r.
  exact (@zip_rows_rect _ _ _ fsub H W _ _ _ (rect_tabulate_shape _ _ _) Hz).
Qed.

(** An exception of the blur (an even kernel size, say) is not caught: once
    at least one image has been processed, extract_fingerprint raises it
    instead of returning (None, None). *)
Theorem blur_failure_is_not_tolerated (dir : string) (names : list string)
  (k : size) (e : exn) :
  listdir dir = Returned names ->
  samples (candidate_paths dir names) <> [] ->
  GaussianBlur (mean_image H W (samples (candidate_paths dir names))) k = Raised e ->
  result (extract_fingerprint listdir imread_grayscale resize_area GaussianBlur
            dir (W, H) k) = Raised e.
Proof.
  intros Hdir Hgood Hblur.
  assert (Hne : candidate_paths dir names <> []).
  { intro E. apply Hgood. rewrite E. reflexivity. }
  destruct (@extract_fingerprint_summary listdir imread_grayscale resize_area
              GaussianBlur W H dir names k Hdir Hne) as [ws [_ [_ Hrun]]].
  rewrite Hrun.
  destruct (length (samples (candidate_paths dir names)) =? 0) eqn:E.
  - apply Nat.eqb_eq in E.
    destruct (samples (candidate_paths dir names)); [contradiction | discriminate E].
  - unfold separate. rewrite Hblur. reflexivity.
Qed.

End ExtractionFurther.

(** The fingerprint does not depend on the order in which os.listdir lists
    the directory. *)
Theorem listing_order_is_irrelevant
  (listdir listdir' : string -> outcome (list string))
  (imread_grayscale : string -> option image8)
  (resize_area : image8 -> size -> outcome image8)
  (GaussianBlur : farray -> size -> outcome farray)
  (dir : string) (names names' : list string) (res k : size) :
  listdir dir = Returned names -> listdir' dir = Returned names' ->
  Permutation names names' ->
  result (extract_fingerprint listdir imread_grayscale resize_area GaussianBlur
            dir res k)
  = result (extract_fingerprint listdir' imread_grayscale resize_area GaussianBlur
              dir res k).
Proof.
  intros Hdir Hdir' Hp. destruct res as [W H].
  assert (Hpaths : Permutation (candidate_paths dir names) (candidate_paths dir names')).
  { unfold candidate_paths. apply Permutation_map. apply filter_permutation. exact Hp. }
  destruct (candidate_paths dir names) as [| p rest] eqn:Ep.
  - apply Permutation_nil in Hpaths.
    unfold extract_fingerprint. rewrite Hdir, Hdir', Ep, Hpaths. reflexivity.
  - assert (Hne : candidate_paths dir names <> []) by (rewrite Ep; discriminate).
    assert (Hne' : candidate_paths dir names' <> []).
    { intro E. rewrite E in Hpaths. apply Permutation_sym, Permutation_nil in Hpaths.
      discriminate Hpaths. }
    destruct (@extract_fingerprint_summary listdir imread_grayscale resize_area
                GaussianBlur W H dir names k Hdir Hne) as [ws [_ [_ Hrun]]].
    destruct (@extract_fingerprint_summary listdir' imread_grayscale resize_area
                GaussianBlur W H dir names' k Hdir' Hne') as [ws' [_ [_ Hrun']]].
    rewrite Hrun, Hrun'. rewrite Ep in *.
    pose proof (usable_samples_permutation imread_grayscale resize_area W H Hpaths)
      as Hs.
    rewrite (Permutation_length Hs).
    rewrite (mean_image_permutation Hs (usable_samples_wf _ _ _ _ _)).
    destruct (length (usable_samples imread_grayscale resize_area (W, H)
                        (candidate_paths dir names')) =? 0); [reflexivity |].
    destruct (separate GaussianBlur _ k); reflexivity.
Qed.

(** * Further properties of the file-name filter *)

Lemma chars_text (l : list ascii) : chars (text l) = l.
Proof. apply list_ascii_of_string_of_list_ascii. Qed.

Lemma text_chars (s : string) : text (chars s) = s.
Proof. apply string_of_list_ascii_of_string. Qed.

Lemma chars_append (a b : string) : chars (a ++ b) = (chars a ++ chars b)%list.
Proof.
  unfold chars. induction a as [| c a IH]; simpl; [reflexivity |].
  rewrite IH. reflexivity.
Qed.

Lemma after_last_absent (c : ascii) (l : list ascii) :
  ~ In c l -> after_last c l = None.
Proof.
  induction l as [| x l IH]; intro Hn; simpl; [reflexivity |].
  rewrite IH by (intro H; apply Hn; right; exact H).
  destruct (Ascii.eqb x c) eqn:E; [| reflexivity].
  apply Ascii.eqb_eq in E. exfalso. apply Hn. left. exact E.
Qed.

Lemma after_last_found (c : ascii) (l r : list ascii) :
  ~ In c r -> after_last c (l ++ c :: r) = Some r.
Proof.
  intro Hn. induction l as [| x l IH]; simpl.
  - rewrite (@after_last_absent c r Hn), Ascii.eqb_refl. reflexivity.
  - rewrite IH. reflexivity.
Qed.

Lemma lower_char_keeps_dot (x : ascii) : Ascii.eqb (lower_char x) dot = Ascii.eqb x dot.
Proof. destruct x as [[] [] [] [] [] [] [] []]; reflexivity. Qed.

Lemma lower_char_keeps_slash (x : ascii) :
  Ascii.eqb (lower_char x) slash = Ascii.eqb x slash.
Proof. destruct x as [[] [] [] [] [] [] [] []]; reflexivity. Qed.

Lemma after_last_map (f : ascii -> ascii) (c : ascii) (l : list ascii) :
  (forall x, Ascii.eqb (f x) c = Ascii.eqb x c) ->
  after_last c (map f l) = option_map (map f) (after_last c l).
Proof.
  intro Hf. induction l as [| x l IH]; simpl; [reflexivity |].
  rewrite IH. destruct (after_last c l); simpl; [reflexivity |].
  rewrite Hf. destruct (Ascii.eqb x c); reflexivity.
Qed.

Lemma drop_leading_map (f : ascii -> ascii) (c : ascii) (l : list ascii) :
  (forall x, Ascii.eqb (f x) c = Ascii.eqb x c) ->
  drop_leading c (map f l) = map f (drop_leading c l).
Proof.
  intro Hf. induction l as [| x l IH]; simpl; [reflexivity |].
  rewrite Hf. destruct (Ascii.eqb x c); [exact IH | reflexivity].
Qed.

Lemma basename_chars_map (l : list ascii) :
  basename_chars (map lower_char l) = map lower_char (basename_chars l).
Proof.
  unfold basename_chars. rewrite (@after_last_map lower_char slash _ lower_char_keeps_slash).
  destruct (after_last slash l); reflexivity.
Qed.

(** The extension of the lower-cased name is the lower-cased extension. *)
Lemma splitext_lower (p : string) : splitext_ext (lower p) = lower (splitext_ext p).
Proof.
  unfold splitext_ext, lower. rewrite chars_text, basename_chars_map.
  rewrite (@drop_leading_map lower_char dot _ lower_char_keeps_dot).
  rewrite (@after_last_map lower_char dot _ lower_char_keeps_dot).
  destruct (after_last dot (drop_leading dot (basename_chars (chars p)))) as [r |];
    simpl option_map; cbv iota.
  - rewrite chars_text. reflexivity.
  - reflexivity.
Qed.

Lemma lower_idempotent (s : string) : lower (lower s) = lower s.
Proof.
  unfold lower. rewrite chars_text, map_map. f_equal. apply map_ext.
  intro x. destruct x as [[] [] [] [] [] [] [] []]; reflexivity.
Qed.

(** The filter of lines 35-39 looks at a file name up to the case of its
    ASCII letters: two names that differ only in case are both candidates
    or both ignored. *)
Theorem supported_ignores_case (f g : string) :
  lower f = lower g -> supported f = supported g.
Proof.
  intro H. unfold supported.
  rewrite <- (splitext_lower f), <- (splitext_lower g), H. reflexivity.
Qed.

(** A name with no dot after its leading dots has no extension and is never
    a candidate: an extensionless file, and also a hidden file such as
    [.png]. *)
Theorem names_without_extension_are_ignored (dots : nat) (body : list ascii) :
  ~ In dot body -> ~ In slash body ->
  supported (text (repeat dot dots ++ body)) = false.
Proof.
  intros Hdot Hslash. unfold supported, splitext_ext. rewrite chars_text.
  assert (Hbase : basename_chars (repeat dot dots ++ body) = repeat dot dots ++ body).
  { unfold basename_chars. rewrite after_last_absent; [reflexivity |].
    intro Hin. apply in_app_or in Hin. destruct Hin as [Hin | Hin].
    - apply repeat_spec in Hin. discriminate Hin.
    - exact (Hslash Hin). }
  rewrite Hbase.
  assert (Hdrop : after_last dot (drop_leading dot (repeat dot dots ++ body)) = None).
  { induction dots as [| d IH]; simpl.
    - destruct body as [| x body]; simpl; [reflexivity |].
      destruct (Ascii.eqb x dot) eqn:E.
      + apply Ascii.eqb_eq in E. exfalso. apply Hdot. left. exact E.
      + apply (@after_last_absent dot _ Hdot).
    - apply IH.
      unfold basename_chars. rewrite after_last_absent; [reflexivity |].
      intro Hin. apply in_app_or in Hin. destruct Hin as [Hin | Hin].
      + apply repeat_spec in Hin. discriminate Hin.
      + exact (Hslash Hin). }
  rewrite Hdrop. reflexivity.
Qed.

(** The base name of a joined path is the name that was joined. *)
Lemma basename_of_joined_path (dir name : string) :
  name <> EmptyString -> ~ In slash (chars name) ->
  basename (path_join dir name) = name.
Proof.
  intros Hne Hslash.
  assert (Hplain : basename name = name).
  { unfold basename, basename_chars. rewrite (@after_last_absent slash _ Hslash).
    apply text_chars. }
  assert (Hafter : forall a : string,
            basename (a ++ "/" ++ name)%string = name).
  { intro a. unfold basename, basename_chars.
    rewrite chars_append.
    change (chars ("/" ++ name)%string) with (slash :: chars name).
    rewrite (@after_last_found slash _ _ Hslash). apply text_chars. }
  unfold path_join.
  destruct (chars name) as [| c rest] eqn:Ec.
  - exfalso. apply Hne. rewrite <- (text_chars name), Ec. reflexivity.
  - destruct (Ascii.eqb c slash) eqn:E.
    + apply Ascii.eqb_eq in E. exfalso. apply Hslash. left. exact E.
    + destruct (rev (chars dir)) as [| d rest'] eqn:Er; [exact Hplain |].
      destruct (Ascii.eqb d slash) eqn:Ed; [| apply Hafter].
      apply Ascii.eqb_eq in Ed. subst d.
      assert (Hdir : chars dir = (rev rest' ++ [slash])%list).
      { rewrite <- (rev_involutive (chars dir)), Er. reflexivity. }
      unfold basename, basename_chars. rewrite chars_append, Hdir, <- app_assoc.
      simpl app. rewrite Ec.
      rewrite (@after_last_found slash _ _ Hslash). rewrite <- Ec. apply text_chars.
Qed.

(** A warning names the file as os.listdir listed it, not the path that
    was tried: an unreadable candidate leaves the accumulator and the count
    as they were and prints the listed name. *)
Theorem warning_names_the_listed_file
  (imread_grayscale : string -> option image8)
  (resize_area : image8 -> size -> outcome image8)
  (process_resolution : size) (dir name : string)
  (accumulator : farray) (processed_image_count : nat) :
  name <> EmptyString -> ~ In slash (chars name) ->
  imread_grayscale (path_join dir name) = None ->
  accumulate_one imread_grayscale resize_area process_resolution
    (path_join dir name) accumulator processed_image_count
  = ([WarningUnreadable name], (accumulator, processed_image_count)).
Proof.
  intros Hne Hslash Hread. unfold accumulate_one. rewrite Hread.
  rewrite (basename_of_joined_path dir Hne Hslash). reflexivity.
Qed.

(** * Further properties of the style application *)







Section StyleFurther.

Variable cvtColor_BGR2GRAY : ndarray (Z * Z * Z) -> outcome image8.
Variable resize_cubic : farray -> size -> outcome farray.



End StyleFurther.

(** * Properties of the persistence and of the command line *)

Lemma slash_free (name : string) :
  forallb (fun c => negb (Ascii.eqb c slash)) (chars name) = true ->
  ~ In slash (chars name).
Proof.
  intros H Hin. rewrite forallb_forall in H. specialize (H _ Hin).
  rewrite Ascii.eqb_refl in H. discriminate H.
Qed.

Lemma joined_paths_differ (dir a b : string) :
  a <> EmptyString -> b <> EmptyString ->
  forallb (fun c => negb (Ascii.eqb c slash)) (chars a) = true ->
  forallb (fun c => negb (Ascii.eqb c slash)) (chars b) = true ->
  a <> b -> path_join dir a <> path_join dir b.
Proof.
  intros Ha Hb Sa Sb Hab E. apply Hab.
  rewrite <- (basename_of_joined_path dir Ha (slash_free _ Sa)).
  rewrite <- (basename_of_joined_path dir Hb (slash_free _ Sb)).
  rewrite E. reflexivity.
Qed.

(** The run_application filter accepts only names the extraction filter
    accepts as well (and not all of them: .bmp, .tiff and .tif raw images
    have no counterpart among the clean images). *)
Theorem clean_filter_is_narrower (f : string) :
  clean_supported f = true -> supported f = true.
Proof.
  unfold clean_supported, supported, CLEAN_EXTENSIONS, SUPPORTED_EXTENSIONS.
  simpl existsb. intro H.
  destruct (String.eqb (lower (splitext_ext f)) ".jpg"); [reflexivity |].
  destruct (String.eqb (lower (splitext_ext f)) ".jpeg"); [reflexivity |].
  destruct (String.eqb (lower (splitext_ext f)) ".png"); [reflexivity |].
  discriminate H.
Qed.

Section ToolProperties.

#[local] Arguments path_join : simpl never.

Variable disk : Type.
Variable listdir : disk -> string -> outcome (list string).
Variable path_exists : disk -> string -> bool.
Variable makedirs : disk -> string -> outcome disk.
Variable imread_grayscale : disk -> string -> option image8.
Variable imread_color : disk -> string -> option (ndarray (Z * Z * Z)).
Variable imread_unchanged : disk -> string -> outcome (option tarray).
Variable imwrite_float : disk -> string -> tarray -> outcome (bool * disk).
Variable imwrite : disk -> string -> image8 -> outcome (bool * disk).
Variable safe_load : disk -> string -> outcome document.
Variable float32 : fval -> fval.
Variable resize_area : image8 -> size -> outcome image8.
Variable GaussianBlur : farray -> size -> outcome farray.
Variable cvtColor_BGR2GRAY : ndarray (Z * Z * Z) -> outcome image8.
Variable resize_cubic : farray -> size -> outcome farray.

Local Abbreviation save := (save_maps makedirs imwrite_float float32).
Local Abbreviation load := (load_maps path_exists imread_unchanged).
Local Abbreviation extraction :=
  (run_extraction listdir makedirs imread_grayscale imwrite_float float32
     resize_area GaussianBlur).
Local Abbreviation application :=
  (run_application listdir path_exists makedirs imread_color imread_unchanged
     imwrite cvtColor_BGR2GRAY resize_cubic).
Local Abbreviation stylize_one :=
  (stylize_file imread_color imwrite cvtColor_BGR2GRAY resize_cubic).
Local Abbreviation stylize :=
  (stylize_files imread_color imwrite cvtColor_BGR2GRAY resize_cubic).
Local Abbreviation run_main :=
  (main listdir path_exists makedirs imread_grayscale imread_color
     imread_unchanged imwrite_float imwrite safe_load float32 resize_area
     GaussianBlur cvtColor_BGR2GRAY resize_cubic).

Ltac tool_unfold :=
  unfold os_makedirs, item, section;
  unfold then_, say, say_all, ret, throw, exit, try_except, reading, writing;
  cbv beta.

(** save_maps returns normally whatever the three writes do. *)
Lemma save_maps_finishes (v n nv : farray) (out : string) (d d1 : disk) :
  makedirs d out = Returned d1 ->
  normalize v = Returned nv ->
  exists ns d', save v n out d = (ns, d', Finished tt).
Proof.
  intros Hmk Hnorm. unfold save_maps. tool_unfold. rewrite Hmk, Hnorm. cbn.
  destruct (imwrite_float d1 (path_join out "vignetting_map.exr")
              (astype_float32 float32 v)) as [[b1 d2] | e1]; cbn;
    [| eexists; eexists; reflexivity].
  destruct (imwrite_float d2 (path_join out "noise_map.exr")
              (astype_float32 float32 n)) as [[b2 d3] | e2]; cbn;
    [| eexists; eexists; reflexivity].
  destruct (imwrite_float d3 (path_join out "vignetting_map_normalized.exr")
              (astype_float32 float32 nv)) as [[b3 d4] | e3]; cbn;
    eexists; eexists; reflexivity.
Qed.

(** save_maps never raises because a file cannot be written: once the
    directory exists and the vignetting field has a maximum, it returns,
    having printed either the three paths or the error. *)
Theorem save_maps_contains_write_errors (v n nv : farray) (out : string)
  (d d1 : disk) :
  makedirs d out = Returned d1 ->
  normalize v = Returned nv ->
  exists d',
    save v n out d
    = ([SavedVignetting (path_join out "vignetting_map.exr");
        SavedNoise (path_join out "noise_map.exr");
        SavedNormalized (path_join out "vignetting_map_normalized.exr")],
       d', Finished tt)
    \/ exists e, save v n out d = ([SaveFailed (Lib e)], d', Finished tt).
Proof.
  intros Hmk Hnorm. unfold save_maps. tool_unfold. rewrite Hmk, Hnorm. cbn.
  destruct (imwrite_float d1 (path_join out "vignetting_map.exr")
              (astype_float32 float32 v)) as [[b1 d2] | e1]; cbn.
  - destruct (imwrite_float d2 (path_join out "noise_map.exr")
                (astype_float32 float32 n)) as [[b2 d3] | e2]; cbn.
    + destruct (imwrite_float d3 (path_join out "vignetting_map_normalized.exr")
                  (astype_float32 float32 nv)) as [[b3 d4] | e3]; cbn.
      * exists d4. left. reflexivity.
      * exists d3. right. exists e3. reflexivity.
    + exists d2. right. exists e2. reflexivity.
  - exists d1. right. exists e1. reflexivity.
Qed.

(** What save_maps writes, load_maps reads back: when the three files are
    written, load_maps on the resulting disk returns the two fields as
    float32 arrays, for a store that returns what was written under a path
    and keeps the other paths as they were. *)
Theorem saved_fingerprint_loads_back (v n nv : farray) (out : string)
  (d d0 d1 d2 d3 : disk) :
  (forall s p a s', imwrite_float s p a = Returned (true, s') ->
     imread_unchanged s' p = Returned (Some a) /\ path_exists s' p = true) ->
  (forall s p a b s' q, imwrite_float s p a = Returned (b, s') -> q <> p ->
     imread_unchanged s' q = imread_unchanged s q
     /\ path_exists s' q = path_exists s q) ->
  makedirs d out = Returned d0 ->
  normalize v = Returned nv ->
  imwrite_float d0 (path_join out "vignetting_map.exr") (astype_float32 float32 v)
  = Returned (true, d1) ->
  imwrite_float d1 (path_join out "noise_map.exr") (astype_float32 float32 n)
  = Returned (true, d2) ->
  imwrite_float d2 (path_join out "vignetting_map_normalized.exr")
    (astype_float32 float32 nv)
  = Returned (true, d3) ->
  snd (save v n out d) = Finished tt
  /\ snd (fst (save v n out d)) = d3
  /\ load out d3
     = ([FingerprintLoaded], d3,
        Finished (Some (astype_float32 float32 v), Some (astype_float32 float32 n))).
Proof.
  intros Hread Hframe Hmk Hnorm W1 W2 W3.
  assert (Hsave : save v n out d
                  = ([SavedVignetting (path_join out "vignetting_map.exr");
                      SavedNoise (path_join out "noise_map.exr");
                      SavedNormalized (path_join out "vignetting_map_normalized.exr")],
                     d3, Finished tt)).
  { unfold save_maps. tool_unfold. rewrite Hmk, Hnorm. cbn.
    rewrite W1. cbn. rewrite W2. cbn. rewrite W3. reflexivity. }
  rewrite Hsave. split; [reflexivity |]. split; [reflexivity |].
  assert (Hvn : path_join out "vignetting_map.exr" <> path_join out "noise_map.exr").
  { apply joined_paths_differ; try reflexivity; discriminate. }
  assert (Hvz : path_join out "vignetting_map.exr"
                <> path_join out "vignetting_map_normalized.exr").
  { apply joined_paths_differ; try reflexivity; discriminate. }
  assert (Hnz : path_join out "noise_map.exr"
                <> path_join out "vignetting_map_normalized.exr").
  { apply joined_paths_differ; try reflexivity; discriminate. }
  destruct (Hread _ _ _ _ W1) as [R1 E1].
  destruct (Hread _ _ _ _ W2) as [R2 E2].
  destruct (Hframe _ _ _ _ _ _ W2 Hvn) as [F2r F2e].
  destruct (Hframe _ _ _ _ _ _ W3 Hvz) as [F3vr F3ve].
  destruct (Hframe _ _ _ _ _ _ W3 Hnz) as [F3nr F3ne].
  unfold load_maps. tool_unfold.
  rewrite F3ve, F2e, E1, F3ne, E2. cbn.
  rewrite F3vr, F2r, R1. cbn. rewrite F3nr, R2. reflexivity.
Qed.

(** load_maps never raises and never changes the disk: whatever the store
    does, it returns, and unless it announced the fingerprint as loaded the
    pair it returns is (None, None). *)
Theorem load_maps_never_raises (fingerprint_dir : string) (d : disk) :
  exists ns r,
    load fingerprint_dir d = (ns, d, Finished r)
    /\ (ns = [FingerprintLoaded] \/ r = (None, None)).
Proof.
  unfold load_maps. tool_unfold.
  destruct (negb (path_exists d (path_join fingerprint_dir "vignetting_map.exr"))
            || negb (path_exists d (path_join fingerprint_dir "noise_map.exr"))).
  - eexists. eexists. split; [reflexivity | right; reflexivity].
  - destruct (imread_unchanged d (path_join fingerprint_dir "vignetting_map.exr"))
      as [v | e]; cbn.
    + destruct (imread_unchanged d (path_join fingerprint_dir "noise_map.exr"))
        as [n | e]; cbn.
      * eexists. eexists. split; [reflexivity | left; reflexivity].
      * eexists. eexists. split; [reflexivity | right; reflexivity].
    + eexists. eexists. split; [reflexivity | right; reflexivity].
Qed.

(** A fingerprint file that exists but cannot be decoded is not an error
    for load_maps: cv2.imread returns None without raising, the success
    message is printed and the field comes back as None. *)
Theorem undecodable_fingerprint_is_reported_loaded (fingerprint_dir : string)
  (d : disk) (noise_map : option tarray) :
  path_exists d (path_join fingerprint_dir "vignetting_map.exr") = true ->
  path_exists d (path_join fingerprint_dir "noise_map.exr") = true ->
  imread_unchanged d (path_join fingerprint_dir "vignetting_map.exr") = Returned None ->
  imread_unchanged d (path_join fingerprint_dir "noise_map.exr") = Returned noise_map ->
  load fingerprint_dir d = ([FingerprintLoaded], d, Finished (None, noise_map)).
Proof.
  intros Ev En Rv Rn. unfold load_maps. tool_unfold.
  rewrite Ev, En. cbn. rewrite Rv. cbn. rewrite Rn. reflexivity.
Qed.

(** One file of the batch never ends the batch: stylize_file returns, and
    prints at most the one message that names the file. *)
Lemma stylize_file_finishes (clean_dir out_dir : string) (vignette noise : tarray)
  (params : subscripted (dict fval)) (filename : string) (d : disk) :
  exists ns d',
    stylize_one clean_dir out_dir vignette noise params filename d
    = (ns, d', Finished tt)
    /\ (ns = [] \/ exists e, ns = [ImageFailed filename e]).
Proof.
  unfold stylize_file. tool_unfold.
  destruct (imread_color d (path_join clean_dir filename)) as [img |]; cbn.
  - destruct params as [ps |]; cbn;
      [| eexists; eexists; split; [reflexivity | right; eexists; reflexivity]].
    destruct (lookup ps "noise_alpha") as [alpha |]; cbn.
    + destruct (apply_style cvtColor_BGR2GRAY resize_cubic (Color img) vignette
                  noise alpha) as [out | e]; cbn.
      * destruct (imwrite d _ out)
          as [[b d'] | e]; cbn.
        -- eexists. eexists. split; [reflexivity | left; reflexivity].
        -- eexists. eexists. split; [reflexivity | right; eexists; reflexivity].
      * eexists. eexists. split; [reflexivity | right; eexists; reflexivity].
    + eexists. eexists. split; [reflexivity | right; eexists; reflexivity].
  - eexists. eexists. split; [reflexivity | left; reflexivity].
Qed.

(** The loop over the clean images returns normally, and everything it
    prints is an error message that names one of the files, at most one per
    file. *)
Lemma stylize_files_finish (clean_dir out_dir : string)
  (vignette noise : tarray) (params : subscripted (dict fval))
  (files : list string) (d : disk) :
  exists ns d',
    stylize clean_dir out_dir vignette noise params files d = (ns, d', Finished tt)
    /\ Forall (fun m => exists f e, In f files /\ m = ImageFailed f e) ns
    /\ length ns <= length files.
Proof.
  revert d. induction files as [| f files IH]; intro d.
  - exists [], d. repeat split; constructor.
  - destruct (stylize_file_finishes clean_dir out_dir vignette noise params f d)
      as [ns1 [d1 [E1 H1]]].
    destruct (IH d1) as [ns2 [d2 [E2 [H2 L2]]]].
    exists (ns1 ++ ns2), d2. cbn [stylize_files]. unfold then_ at 1.
    rewrite E1, E2. split; [reflexivity |]. split.
    + apply Forall_app. split.
      * destruct H1 as [-> | [e ->]]; constructor; [| constructor].
        exists f, e. split; [left; reflexivity | reflexivity].
      * eapply Forall_impl; [| exact H2].
        intros m [g [e [Hin Hm]]]. exists g, e. split; [right; exact Hin | exact Hm].
    + rewrite length_app. destruct H1 as [-> | [e ->]]; simpl; lia.
Qed.

(** Clean images that cv2.imread cannot decode are skipped without a word
    (the extraction warns about each unreadable raw image; the application
    does not): the loop prints nothing and leaves the disk as it was. *)
Theorem undecodable_clean_images_are_skipped_silently (clean_dir out_dir : string)
  (vignette noise : tarray) (params : subscripted (dict fval))
  (files : list string) (d : disk) :
  (forall f, In f files -> imread_color d (path_join clean_dir f) = None) ->
  stylize clean_dir out_dir vignette noise params files d = ([], d, Finished tt).
Proof.
  induction files as [| f files IH]; intro Hnone; [reflexivity |].
  cbn [stylize_files]. unfold then_ at 1. unfold stylize_file. tool_unfold.
  rewrite (Hnone f (or_introl eq_refl)). cbn.
  fold stylize_files.
  rewrite IH by (intros g Hg; apply Hnone; right; exact Hg). reflexivity.
Qed.

(** noise_alpha is looked up once per image, inside the try block: when the
    applicator section has no such key, every decodable image fails with the
    KeyError, nothing is written, and the batch still returns normally. *)
Theorem missing_noise_alpha_writes_nothing (clean_dir out_dir : string)
  (vignette noise : tarray) (params : dict fval) (files : list string) (d : disk) :
  lookup params "noise_alpha" = None ->
  stylize clean_dir out_dir vignette noise (Mapping params) files d
  = (map (fun f => ImageFailed f (KeyError "noise_alpha"))
       (filter (fun f => match imread_color d (path_join clean_dir f) with
                         | Some _ => true
                         | None => false
                         end) files),
     d, Finished tt).
Proof.
  intro Hkey. induction files as [| f files IH]; [reflexivity |].
  cbn [stylize_files filter]. unfold then_ at 1. unfold stylize_file. tool_unfold.
  destruct (imread_color d (path_join clean_dir f)) as [img |]; cbn.
  - rewrite Hkey. cbn. fold stylize_files. rewrite IH. reflexivity.
  - fold stylize_files. rewrite IH. reflexivity.
Qed.


(** A configuration file that cannot be opened or parsed ends the tool with
    exit code 1 before any step runs, whatever the action. *)
Theorem unreadable_configuration_exits (act : action) (config_path : string)
  (d : disk) (e : exn) :
  safe_load d config_path = Raised e ->
  run_main act config_path d
  = ([LoadingConfig config_path;
      match e with
      | FileNotFoundError => ConfigNotFound config_path
      | _ => ConfigInvalid e
      end],
     d, Exited 1).
Proof.
  intro Hload. unfold main, load_config. tool_unfold. rewrite Hload.
  destruct e; reflexivity.
Qed.

Section Configured.

Variable cfg : config.
Variables ps : dict string.
Variables out fp : string.
Hypothesis Hpaths : paths cfg = Some (Mapping ps).
Hypothesis Hout : lookup ps "output_dir" = Some out.
Hypothesis Hfp : lookup ps "fingerprint_subdir" = Some fp.

Section ExtractionStep.

Variable an : dict size.
Variable raw : string.
Variables res k : size.
Hypothesis Han : analyzer cfg = Some (Mapping an).
Hypothesis Hraw : lookup ps "raw_images_dir" = Some raw.
Hypothesis Hres : lookup an "process_resolution" = Some res.
Hypothesis Hk : lookup an "gaussian_blur_kernel" = Some k.

Local Abbreviation extracted d :=
  (extract_fingerprint (listdir d) (imread_grayscale d) resize_area GaussianBlur
     raw res k).

Lemma run_extraction_none (d : disk) :
  result (extracted d) = Returned None ->
  extraction (Mapping cfg) d
  = (ExtractionStarts :: map FromExtraction (printed (extracted d))
       ++ [ExtractionFailed],
     d, Exited 1).
Proof.
  intro Hnone. unfold run_extraction, call_extract_fingerprint. tool_unfold.
  rewrite Hpaths, Han. cbn. rewrite Hraw. cbn. rewrite Hout. cbn. rewrite Hfp. cbn.
  rewrite Hres. cbn. rewrite Hk. cbn. rewrite Hnone. reflexivity.
Qed.

(** When extract_fingerprint reports no fingerprint, the extraction step
    and with it the whole tool ends with exit code 1: nothing is written,
    not even the output directory is created, and under the action [all]
    the application step does not start. *)
Theorem failed_extraction_stops_the_tool (act : action) (config_path : string)
  (d : disk) :
  act <> Apply ->
  safe_load d config_path = Returned (Mapping cfg) ->
  result (extracted d) = Returned None ->
  run_main act config_path d
  = (LoadingConfig config_path :: ExtractionStarts
       :: map FromExtraction (printed (extracted d)) ++ [ExtractionFailed],
     d, Exited 1).
Proof.
  intros Hact Hload Hnone. unfold main, load_config.
  unfold then_ at 1 2. unfold say. rewrite Hload. cbv beta iota.
  destruct act; [| contradiction |].
  - rewrite (run_extraction_none _ Hnone). reflexivity.
  - unfold then_ at 1. rewrite (run_extraction_none _ Hnone). reflexivity.
Qed.

(** A fingerprint that cannot be written does not fail the extraction step:
    save_maps reports the error and returns, and run_extraction announces
    the extraction as completed and returns normally. *)
Theorem extraction_survives_write_errors (d d1 : disk) (v n nv : farray) :
  result (extracted d) = Returned (Some (v, n)) ->
  makedirs d (path_join out fp) = Returned d1 ->
  normalize v = Returned nv ->
  exists ns d',
    save v n (path_join out fp) d = (ns, d', Finished tt)
    /\ extraction (Mapping cfg) d
       = (ExtractionStarts :: map FromExtraction (printed (extracted d))
            ++ ns ++ [ExtractionDone],
          d', Finished tt).
Proof.
  intros Hsome Hmk Hnorm.
  destruct (@save_maps_finishes v n nv (path_join out fp) d d1 Hmk Hnorm)
    as [ns [d' Hsave]].
  exists ns, d'. split; [exact Hsave |].
  unfold run_extraction, call_extract_fingerprint.
  unfold item, section. unfold then_ at 1 2 3 4 5 6 7 8 9. unfold say at 1, ret, throw.
  cbv beta.
  rewrite Hpaths, Han. cbn. rewrite Hraw. cbn. rewrite Hout. cbn. rewrite Hfp. cbn.
  rewrite Hres. cbn. rewrite Hk. cbn. rewrite Hsome. cbn.
  unfold then_. rewrite Hsave. reflexivity.
Qed.

End ExtractionStep.

Section ApplicationStep.

Variable params : subscripted (dict fval).
Variables clean styled : string.
Hypothesis Hap : applicator cfg = Some params.
Hypothesis Hclean : lookup ps "clean_images_dir" = Some clean.
Hypothesis Hstyled : lookup ps "stylized_subdir" = Some styled.

Lemma run_application_start (d d1 : disk) :
  makedirs d (path_join out styled) = Returned d1 ->
  application (Mapping cfg) d
  = (let '(ns, d', r) :=
       then_ (load (path_join out fp))
         (fun fingerprint =>
            match fingerprint with
            | (Some vignette, Some noise) =>
                fun d =>
                  match listdir d clean with
                  | Raised FileNotFoundError =>
                      then_ (say (CleanDirectoryMissing clean))
                        (fun _ => then_ (os_makedirs makedirs clean)
                                    (fun _ => say CleanDirectoryCreated)) d
                  | Raised e => ([], d, Threw (Lib e))
                  | Returned names =>
                      match filter clean_supported names with
                      | [] => say (NoCleanImages clean) d
                      | _ :: _ =>
                          then_ (say (FoundCleanImages
                                        (length (filter clean_supported names))))
                            (fun _ =>
                               then_ (stylize clean (path_join out styled)
                                        vignette noise params
                                        (filter clean_supported names))
                                 (fun _ => say (ApplicationDone
                                                  (path_join out styled)))) d
                      end
                  end
            | _ => then_ (say ApplicationWithoutFingerprint) (fun _ => exit 1)
            end) d1 in
     (ApplicationStarts :: ns, d', r)).
Proof.
  intro Hmk. unfold run_application.
  unfold item, section, os_makedirs at 1.
  unfold then_ at 1 2 3 4 5 6 7 8 9. unfold say at 1, ret, throw, writing at 1.
  cbv beta.
  rewrite Hpaths, Hap. cbn. rewrite Hclean. cbn. rewrite Hout. cbn. rewrite Hfp. cbn.
  rewrite Hstyled. cbn. rewrite Hmk. cbn.
  destruct (then_ _ _ d1) as [[ns d'] r]. reflexivity.
Qed.

(** Without both fingerprint files the application step ends the tool with
    exit code 1 after creating the output directory: the clean images are
    never listed. *)
Theorem application_without_fingerprint_exits (d d1 : disk) :
  makedirs d (path_join out styled) = Returned d1 ->
  (path_exists d1 (path_join (path_join out fp) "vignetting_map.exr") = false
   \/ path_exists d1 (path_join (path_join out fp) "noise_map.exr") = false) ->
  application (Mapping cfg) d
  = ([ApplicationStarts; FingerprintFilesMissing (path_join out fp);
      HintRunAnalyzer; ApplicationWithoutFingerprint],
     d1, Exited 1).
Proof.
  intros Hmk Hmissing. rewrite (run_application_start Hmk).
  unfold load_maps. tool_unfold.
  assert (E : negb (path_exists d1 (path_join (path_join out fp) "vignetting_map.exr"))
              || negb (path_exists d1 (path_join (path_join out fp) "noise_map.exr"))
              = true).
  { destruct Hmissing as [-> | ->]; [reflexivity | apply orb_true_r]. }
  rewrite E. reflexivity.
Qed.

(** A missing directory of clean images is not an error of the application
    step: the directory is created for the user and the step returns
    normally. *)
Theorem missing_clean_directory_is_created (d d1 d2 : disk) (ns : list notice)
  (vignette noise : tarray) :
  makedirs d (path_join out styled) = Returned d1 ->
  load (path_join out fp) d1 = (ns, d1, Finished (Some vignette, Some noise)) ->
  listdir d1 clean = Raised FileNotFoundError ->
  makedirs d1 clean = Returned d2 ->
  application (Mapping cfg) d
  = (ApplicationStarts :: ns
       ++ [CleanDirectoryMissing clean; CleanDirectoryCreated],
     d2, Finished tt).
Proof.
  intros Hmk Hload Hdir Hmk'. rewrite (run_application_start Hmk).
  unfold then_ at 1. rewrite Hload. rewrite Hdir.
  tool_unfold. rewrite Hmk'. reflexivity.
Qed.

(** No image can abort the application step: once the fingerprint is loaded
    and the clean directory holds an accepted file, run_application returns
    normally and announces completion, whatever the reads, the style
    application and the writes do; between the count and the completion
    message it prints only error messages, each naming an accepted file, at
    most one per file. *)
Theorem no_image_aborts_the_batch (d d1 : disk) (ns : list notice)
  (vignette noise : tarray) (names : list string) :
  makedirs d (path_join out styled) = Returned d1 ->
  load (path_join out fp) d1 = (ns, d1, Finished (Some vignette, Some noise)) ->
  listdir d1 clean = Returned names ->
  filter clean_supported names <> [] ->
  exists ms d',
    application (Mapping cfg) d
    = (ApplicationStarts :: ns
         ++ FoundCleanImages (length (filter clean_supported names)) :: ms
         ++ [ApplicationDone (path_join out styled)],
       d', Finished tt)
    /\ Forall (fun m => exists f e,
                 In f names /\ clean_supported f = true /\ m = ImageFailed f e) ms
    /\ length ms <= length (filter clean_supported names).
Proof.
  intros Hmk Hload Hdir Hne. rewrite (run_application_start Hmk).
  unfold then_ at 1. rewrite Hload. rewrite Hdir.
  destruct (stylize_files_finish clean (path_join out styled) vignette noise params
              (filter clean_supported names) d1) as [ms [d' [Hrun [Hms Hlen]]]].
  exists ms, d'. split; [| split; [| exact Hlen]].
  - destruct (filter clean_supported names) as [| f files] eqn:Hf; [contradiction |].
    unfold then_, say. rewrite Hrun. reflexivity.
  - eapply Forall_impl; [| exact Hms].
    intros m [f [e [Hin Hm]]]. apply filter_In in Hin. destruct Hin as [Hin Hok].
    exists f, e. repeat split; assumption.
Qed.

End ApplicationStep.

End Configured.

End ToolProperties.

(** * The further properties on concrete inputs *)

Lemma fingerprint_is_finite_witness :
  all_finite (fst Disk.fingerprint) /\ all_finite (snd Disk.fingerprint).
Proof.
  apply (@fingerprint_is_finite Disk.listdir Disk.imread_grayscale
           Ref.resize_area Ref.GaussianBlur 2 2 Disk.dir (3, 3)
           (fst Disk.fingerprint) (snd Disk.fingerprint)).
  - intros a b Ha Hf Hb. eapply RefContract.GaussianBlur_finite; eassumption.
  - vm_compute. reflexivity.
Defined.

(** Three candidates, one of which does not decode: two counted, one
    warning. *)
Lemma every_candidate_is_counted_or_warned_witness :
  2 + length [WarningUnreadable "broken.JPG"] = 3
  /\ Forall (fun m => is_warning m = true) [WarningUnreadable "broken.JPG"].
Proof.
  apply (@every_candidate_is_counted_or_warned Disk.imread_grayscale
           Ref.resize_area 2 2 ["raw/a.png"; "raw/broken.JPG"; "raw/c.bmp"]%string
           [WarningUnreadable "broken.JPG"]
           (fst (snd (accumulate_images Disk.imread_grayscale Ref.resize_area (2, 2)
                        ["raw/a.png"; "raw/broken.JPG"; "raw/c.bmp"]%string
                        (zeros 2 2) 0)))
           2).
  vm_compute. reflexivity.
Defined.

Lemma accumulation_order_is_irrelevant_witness :
  snd (accumulate_images Disk.imread_grayscale Ref.resize_area (2, 2)
         ["raw/a.png"; "raw/c.bmp"]%string (zeros 2 2) 0)
  = snd (accumulate_images Disk.imread_grayscale Ref.resize_area (2, 2)
           ["raw/c.bmp"; "raw/a.png"]%string (zeros 2 2) 0).
Proof.
  apply (@accumulation_order_is_irrelevant Disk.imread_grayscale Ref.resize_area
           2 2 ["raw/a.png"; "raw/c.bmp"]%string ["raw/c.bmp"; "raw/a.png"]%string).
  apply perm_swap.
Defined.

Lemma fingerprint_has_processing_shape_witness :
  rect 2 2 (fst Disk.fingerprint) /\ rect 2 2 (snd Disk.fingerprint).
Proof.
  apply (@fingerprint_has_processing_shape Disk.listdir Disk.imread_grayscale
           Ref.resize_area Ref.GaussianBlur 2 2 Disk.dir (3, 3)
           (fst Disk.fingerprint) (snd Disk.fingerprint)).
  vm_compute. reflexivity.
Defined.

(** An even kernel size. *)
Lemma blur_failure_is_not_tolerated_witness :
  result (extract_fingerprint Disk.listdir Disk.imread_grayscale
            Ref.resize_area Ref.GaussianBlur Disk.dir (2, 2) (2, 2))
  = Raised Cv2Error.
Proof.
  apply (@blur_failure_is_not_tolerated Disk.listdir Disk.imread_grayscale
           Ref.resize_area Ref.GaussianBlur 2 2 Disk.dir
           ["a.png"; "broken.JPG"; "notes.txt"; "c.bmp"]%string (2, 2) Cv2Error).
  - reflexivity.
  - vm_compute. discriminate.
  - vm_compute. reflexivity.
Defined.

Lemma listing_order_is_irrelevant_witness :
  result (extract_fingerprint Disk.listdir Disk.imread_grayscale
            Ref.resize_area Ref.GaussianBlur Disk.dir (2, 2) (3, 3))
  = result (extract_fingerprint
              (fun _ => Returned ["c.bmp"; "notes.txt"; "broken.JPG"; "a.png"]%string)
              Disk.imread_grayscale Ref.resize_area Ref.GaussianBlur
              Disk.dir (2, 2) (3, 3)).
Proof.
  apply (@listing_order_is_irrelevant Disk.listdir
           (fun _ => Returned ["c.bmp"; "notes.txt"; "broken.JPG"; "a.png"]%string)
           Disk.imread_grayscale Ref.resize_area Ref.GaussianBlur Disk.dir
           ["a.png"; "broken.JPG"; "notes.txt"; "c.bmp"]%string
           ["c.bmp"; "notes.txt"; "broken.JPG"; "a.png"]%string (2, 2) (3, 3)).
  - reflexivity.
  - reflexivity.
  - apply (Permutation_rev ["a.png"; "broken.JPG"; "notes.txt"; "c.bmp"]%string).
Defined.

Lemma supported_ignores_case_witness :
  supported "IMG_0001.JPG" = supported "img_0001.jpg".
Proof. apply supported_ignores_case. reflexivity. Defined.

(** The hidden file [.png]. *)
Lemma names_without_extension_are_ignored_witness :
  supported ".png" = false.
Proof.
  apply (@names_without_extension_are_ignored 1 (chars "png")).
  - intros [H | [H | [H | []]]]; discriminate H.
  - intros [H | [H | [H | []]]]; discriminate H.
Defined.

Lemma warning_names_the_listed_file_witness :
  accumulate_one Disk.imread_grayscale Ref.resize_area (2, 2) "raw/broken.JPG"
    (zeros 2 2) 0
  = ([WarningUnreadable "broken.JPG"], (zeros 2 2, 0)).
Proof.
  apply (@warning_names_the_listed_file Disk.imread_grayscale Ref.resize_area
           (2, 2) "raw" "broken.JPG" (zeros 2 2) 0).
  - discriminate.
  - apply slash_free. reflexivity.
  - reflexivity.
Defined.

Lemma clean_filter_is_narrower_witness : supported "x.PNG" = true.
Proof. apply clean_filter_is_narrower. reflexivity. Defined.



(** ** The store of [Store] returns what was written *)

Module StoreContract.

Lemma reads_what_was_written (s : Store.disk) (p : string) (a : tarray)
  (s' : Store.disk) :
  Store.imwrite_float s p a = Returned (true, s') ->
  Store.imread_unchanged s' p = Returned (Some a) /\ Store.path_exists s' p = true.
Proof.
  intro Hw. inversion Hw; subst s'.
  unfold Store.imread_unchanged, Store.path_exists. simpl lookup.
  rewrite String.eqb_refl. split; reflexivity.
Qed.

Lemma keeps_other_paths (s : Store.disk) (p : string) (a : tarray) (b : bool)
  (s' : Store.disk) (q : string) :
  Store.imwrite_float s p a = Returned (b, s') -> q <> p ->
  Store.imread_unchanged s' q = Store.imread_unchanged s q
  /\ Store.path_exists s' q = Store.path_exists s q.
Proof.
  intros Hw Hq. inversion Hw; subst s'.
  unfold Store.imread_unchanged, Store.path_exists. simpl lookup.
  assert (E : String.eqb p q = false).
  { apply String.eqb_neq. intro E. apply Hq. symmetry. exact E. }
  rewrite E. split; reflexivity.
Qed.

End StoreContract.

(** * The tool on [Store] *)

Local Abbreviation store_main :=
  (main Store.listdir Store.path_exists Store.makedirs Store.imread_grayscale
     Store.imread_color Store.imread_unchanged Store.imwrite_float Store.imwrite
     Store.safe_load Ref.float32 Ref.resize_area Ref.GaussianBlur
     Ref.cvtColor_BGR2GRAY Ref.resize_cubic).
Local Abbreviation store_extraction :=
  (run_extraction Store.listdir Store.makedirs Store.imread_grayscale
     Store.imwrite_float Ref.float32 Ref.resize_area Ref.GaussianBlur).
Local Abbreviation store_application :=
  (run_application Store.listdir Store.path_exists Store.makedirs
     Store.imread_color Store.imread_unchanged Store.imwrite
     Ref.cvtColor_BGR2GRAY Ref.resize_cubic).
Local Abbreviation store_save :=
  (save_maps Store.makedirs Store.imwrite_float Ref.float32).
Local Abbreviation store_load :=
  (load_maps Store.path_exists Store.imread_unchanged).
Local Abbreviation store_stylize :=
  (stylize_files Store.imread_color Store.imwrite Ref.cvtColor_BGR2GRAY
     Ref.resize_cubic).

Lemma save_maps_contains_write_errors_witness :
  exists d',
    store_save [[of_Z 2; of_Z 4]] [[fzero; of_Z 1]] "out/fp" Store.fresh
    = ([SavedVignetting "out/fp/vignetting_map.exr";
        SavedNoise "out/fp/noise_map.exr";
        SavedNormalized "out/fp/vignetting_map_normalized.exr"],
       d', Finished tt)
    \/ exists e,
         store_save [[of_Z 2; of_Z 4]] [[fzero; of_Z 1]] "out/fp" Store.fresh
         = ([SaveFailed (Lib e)], d', Finished tt).
Proof.
  apply (@save_maps_contains_write_errors Store.disk Store.makedirs
           Store.imwrite_float Ref.float32
           [[of_Z 2; of_Z 4]] [[fzero; of_Z 1]]
           (Store.returned (normalize [[of_Z 2; of_Z 4]]))
           "out/fp" Store.fresh (("out/fp"%string, Store.Directory []) :: Store.fresh)).
  - reflexivity.
  - vm_compute. reflexivity.
Defined.

Lemma saved_fingerprint_loads_back_witness :
  snd (store_save [[of_Z 2; of_Z 4]] [[fzero; of_Z 1]] "out/fp" Store.fresh)
  = Finished tt
  /\ snd (fst (store_save [[of_Z 2; of_Z 4]] [[fzero; of_Z 1]] "out/fp" Store.fresh))
     = [("out/fp/vignetting_map_normalized.exr",
         Store.Exr (astype_float32 Ref.float32
                      (Store.returned (normalize [[of_Z 2; of_Z 4]]))));
        ("out/fp/noise_map.exr",
         Store.Exr (astype_float32 Ref.float32 [[fzero; of_Z 1]]));
        ("out/fp/vignetting_map.exr",
         Store.Exr (astype_float32 Ref.float32 [[of_Z 2; of_Z 4]]));
        ("out/fp", Store.Directory [])]%string ++ Store.fresh
  /\ store_load "out/fp"
       ([("out/fp/vignetting_map_normalized.exr",
          Store.Exr (astype_float32 Ref.float32
                       (Store.returned (normalize [[of_Z 2; of_Z 4]]))));
         ("out/fp/noise_map.exr",
          Store.Exr (astype_float32 Ref.float32 [[fzero; of_Z 1]]));
         ("out/fp/vignetting_map.exr",
          Store.Exr (astype_float32 Ref.float32 [[of_Z 2; of_Z 4]]));
         ("out/fp", Store.Directory [])]%string ++ Store.fresh)
     = ([FingerprintLoaded],
        [("out/fp/vignetting_map_normalized.exr",
          Store.Exr (astype_float32 Ref.float32
                       (Store.returned (normalize [[of_Z 2; of_Z 4]]))));
         ("out/fp/noise_map.exr",
          Store.Exr (astype_float32 Ref.float32 [[fzero; of_Z 1]]));
         ("out/fp/vignetting_map.exr",
          Store.Exr (astype_float32 Ref.float32 [[of_Z 2; of_Z 4]]));
         ("out/fp", Store.Directory [])]%string ++ Store.fresh,
        Finished (Some (astype_float32 Ref.float32 [[of_Z 2; of_Z 4]]),
                  Some (astype_float32 Ref.float32 [[fzero; of_Z 1]]))).
Proof.
  apply (@saved_fingerprint_loads_back Store.disk Store.path_exists Store.makedirs
           Store.imread_unchanged Store.imwrite_float Ref.float32
           [[of_Z 2; of_Z 4]] [[fzero; of_Z 1]]
           (Store.returned (normalize [[of_Z 2; of_Z 4]]))
           "out/fp" Store.fresh
           (("out/fp"%string, Store.Directory []) :: Store.fresh)
           ([("out/fp/vignetting_map.exr",
              Store.Exr (astype_float32 Ref.float32 [[of_Z 2; of_Z 4]]));
             ("out/fp", Store.Directory [])]%string ++ Store.fresh)
           ([("out/fp/noise_map.exr",
              Store.Exr (astype_float32 Ref.float32 [[fzero; of_Z 1]]));
             ("out/fp/vignetting_map.exr",
              Store.Exr (astype_float32 Ref.float32 [[of_Z 2; of_Z 4]]));
             ("out/fp", Store.Directory [])]%string ++ Store.fresh)).
  - apply StoreContract.reads_what_was_written.
  - apply StoreContract.keeps_other_paths.
  - reflexivity.
  - vm_compute. reflexivity.
  - reflexivity.
  - reflexivity.
  - reflexivity.
Defined.

Lemma undecodable_fingerprint_is_reported_loaded_witness :
  store_load "out/fp" Store.corrupt
  = ([FingerprintLoaded], Store.corrupt,
     Finished (None, Some (typed Float32 [[fzero; fzero]]))).
Proof.
  apply undecodable_fingerprint_is_reported_loaded; reflexivity.
Defined.

(** [z.jpg] does not decode. *)
Lemma undecodable_clean_images_are_skipped_silently_witness :
  store_stylize "clean" "out/styled"
    (typed Float32 [[of_Z 2; of_Z 1]]) (typed Float32 [[fzero; fzero]])
    (Mapping [("noise_alpha"%string, of_Z 1)]) ["z.jpg"; "missing.png"]%string
    Store.extracted
  = ([], Store.extracted, Finished tt).
Proof.
  apply undecodable_clean_images_are_skipped_silently.
  intros f [<- | [<- | []]]; reflexivity.
Defined.

Lemma missing_noise_alpha_writes_nothing_witness :
  store_stylize "clean" "out/styled"
    (typed Float32 [[of_Z 2; of_Z 1]]) (typed Float32 [[fzero; fzero]])
    (Mapping []) ["x.png"; "z.jpg"]%string Store.extracted
  = ([ImageFailed "x.png" (KeyError "noise_alpha")], Store.extracted, Finished tt).
Proof.
  apply (@missing_noise_alpha_writes_nothing Store.disk Store.imread_color
           Store.imwrite Ref.cvtColor_BGR2GRAY Ref.resize_cubic
           "clean" "out/styled"
           (typed Float32 [[of_Z 2; of_Z 1]]) (typed Float32 [[fzero; fzero]])
           [] ["x.png"; "z.jpg"]%string Store.extracted).
  reflexivity.
Defined.


Lemma unreadable_configuration_exits_witness :
  store_main All "missing.yaml" Store.fresh
  = ([LoadingConfig "missing.yaml"; ConfigNotFound "missing.yaml"],
     Store.fresh, Exited 1).
Proof.
  apply (@unreadable_configuration_exits Store.disk Store.listdir Store.path_exists
           Store.makedirs Store.imread_grayscale Store.imread_color
           Store.imread_unchanged Store.imwrite_float Store.imwrite Store.safe_load
           Ref.float32 Ref.resize_area Ref.GaussianBlur Ref.cvtColor_BGR2GRAY
           Ref.resize_cubic All "missing.yaml" Store.fresh FileNotFoundError).
  reflexivity.
Defined.

(** No directory of raw images. *)
Lemma failed_extraction_stops_the_tool_witness :
  store_main All "config.yaml" Store.blank
  = ([LoadingConfig "config.yaml"; ExtractionStarts;
      FromExtraction (ErrorNoDirectory "raw"); ExtractionFailed],
     Store.blank, Exited 1).
Proof.
  apply (@failed_extraction_stops_the_tool Store.disk Store.listdir
           Store.path_exists Store.makedirs Store.imread_grayscale
           Store.imread_color Store.imread_unchanged Store.imwrite_float
           Store.imwrite Store.safe_load Ref.float32 Ref.resize_area
           Ref.GaussianBlur Ref.cvtColor_BGR2GRAY Ref.resize_cubic
           Store.settings Store.locations
           "out" "fp" eq_refl eq_refl eq_refl
           [("process_resolution", (2, 2)); ("gaussian_blur_kernel", (3, 3))]%string
           "raw" (2, 2) (3, 3) eq_refl eq_refl eq_refl eq_refl
           All "config.yaml" Store.blank).
  - discriminate.
  - reflexivity.
  - reflexivity.
Defined.

Lemma extraction_survives_write_errors_witness :
  exists ns d',
    store_save (fst Store.fingerprint) (snd Store.fingerprint) "out/fp" Store.fresh
    = (ns, d', Finished tt)
    /\ store_extraction (Mapping Store.settings) Store.fresh
       = (ExtractionStarts
            :: map FromExtraction
                 (printed (extract_fingerprint (Store.listdir Store.fresh)
                             (Store.imread_grayscale Store.fresh)
                             Ref.resize_area Ref.GaussianBlur "raw" (2, 2) (3, 3)))
            ++ ns ++ [ExtractionDone],
          d', Finished tt).
Proof.
  apply (@extraction_survives_write_errors Store.disk Store.listdir
           Store.makedirs Store.imread_grayscale Store.imwrite_float
           Ref.float32 Ref.resize_area Ref.GaussianBlur
           Store.settings Store.locations
           "out" "fp" eq_refl eq_refl eq_refl
           [("process_resolution", (2, 2)); ("gaussian_blur_kernel", (3, 3))]%string
           "raw" (2, 2) (3, 3) eq_refl eq_refl eq_refl eq_refl
           Store.fresh (("out/fp"%string, Store.Directory []) :: Store.fresh)
           (fst Store.fingerprint) (snd Store.fingerprint)
           (Store.returned (normalize (fst Store.fingerprint)))).
  - vm_compute. reflexivity.
  - reflexivity.
  - vm_compute. reflexivity.
Defined.

(** No fingerprint has been extracted yet. *)
Lemma application_without_fingerprint_exits_witness :
  store_application (Mapping Store.settings) Store.fresh
  = ([ApplicationStarts; FingerprintFilesMissing "out/fp"; HintRunAnalyzer;
      ApplicationWithoutFingerprint],
     ("out/styled"%string, Store.Directory []) :: Store.fresh, Exited 1).
Proof.
  apply (@application_without_fingerprint_exits Store.disk Store.listdir
           Store.path_exists Store.makedirs Store.imread_color
           Store.imread_unchanged Store.imwrite Ref.cvtColor_BGR2GRAY
           Ref.resize_cubic Store.settings Store.locations
           "out" "fp" eq_refl eq_refl eq_refl
           (Mapping [("noise_alpha"%string, of_Z 1)]) "clean" "styled"
           eq_refl eq_refl eq_refl
           Store.fresh (("out/styled"%string, Store.Directory []) :: Store.fresh)).
  - reflexivity.
  - left. reflexivity.
Defined.

Lemma missing_clean_directory_is_created_witness :
  store_application (Mapping Store.settings) Store.without_clean
  = ([ApplicationStarts; FingerprintLoaded; CleanDirectoryMissing "clean";
      CleanDirectoryCreated],
     ("clean"%string, Store.Directory []) :: Store.without_clean, Finished tt).
Proof.
  apply (@missing_clean_directory_is_created Store.disk Store.listdir
           Store.path_exists Store.makedirs Store.imread_color
           Store.imread_unchanged Store.imwrite Ref.cvtColor_BGR2GRAY
           Ref.resize_cubic Store.settings Store.locations
           "out" "fp" eq_refl eq_refl eq_refl
           (Mapping [("noise_alpha"%string, of_Z 1)]) "clean" "styled"
           eq_refl eq_refl eq_refl
           Store.without_clean Store.without_clean
           (("clean"%string, Store.Directory []) :: Store.without_clean)
           [FingerprintLoaded]
           (typed Float32 [[of_Z 2; of_Z 1]]) (typed Float32 [[fzero; fzero]])).
  - reflexivity.
  - reflexivity.
  - reflexivity.
  - reflexivity.
Defined.

(** Three listed files: [x.png] is stylized, [y.bmp] is not accepted,
    [z.jpg] does not decode. *)
Lemma no_image_aborts_the_batch_witness :
  exists ms d',
    store_application (Mapping Store.settings) Store.extracted
    = (ApplicationStarts
         :: [FingerprintLoaded]
         ++ FoundCleanImages 2 :: ms ++ [ApplicationDone "out/styled"],
       d', Finished tt)
    /\ Forall (fun m => exists f e,
                 In f ["x.png"; "y.bmp"; "z.jpg"]%string
                 /\ clean_supported f = true /\ m = ImageFailed f e) ms
    /\ length ms <= 2.
Proof.
  apply (@no_image_aborts_the_batch Store.disk Store.listdir
           Store.path_exists Store.makedirs Store.imread_color
           Store.imread_unchanged Store.imwrite Ref.cvtColor_BGR2GRAY
           Ref.resize_cubic Store.settings Store.locations
           "out" "fp" eq_refl eq_refl eq_refl
           (Mapping [("noise_alpha"%string, of_Z 1)]) "clean" "styled"
           eq_refl eq_refl eq_refl
           Store.extracted Store.extracted
           [FingerprintLoaded]
           (typed Float32 [[of_Z 2; of_Z 1]]) (typed Float32 [[fzero; fzero]])
           ["x.png"; "y.bmp"; "z.jpg"]%string).
  - reflexivity.
  - reflexivity.
  - reflexivity.
  - vm_compute. discriminate.
Defined.
